(** * clean_data.py: a shallow embedding and its verified properties

    The program reads the first sheet of a workbook, rebuilds dense rows of
    text from sparse cell references, validates a fixed header, coerces six
    numeric columns, drops malformed rows, removes duplicates and writes the
    survivors as delimited text.

    Modelling choices.
    - A Python [str] is a [string]; a character is the code point it
      denotes, so the development covers the strings whose code points lie
      below 256.  [isalpha], [isdigit], [isspace] and [upper] follow
      CPython's tables on that range.
    - A Python [int] is a [Z]; [int(str)] and [str(int)] refuse more than
      [max_str_digits] digits, the interpreter's default limit of 4300.
    - Exceptions are values of [exn]; a call that may raise returns a
      [result].
    - The XML documents are taken after parsing: a cell element is the
      triple of what [cell.get("r")], [cell.get("t")] and
      [cell.find("t:v")] return, a row element is the list that
      [row.findall("t:c")] returns, and the shared-string table is the list
      that [_load_shared_strings] returns. The documents themselves are
      trees of [element]s, from which these are read with [find] and
      [findall]; a member of the archive is absent, ill-formed or a
      document with a root.
    - The file system is a finite map from paths to file contents; a
      file holds what was written to it before an exception closed it. *)

From Stdlib Require Import ZArith String Ascii List Lia Bool.
From stdpp Require Import base tactics option list gmap strings pretty.

Local Open Scope string_scope.
Local Open Scope list_scope.
Local Open Scope Z_scope.

(** ** Python primitives used by the program *)

Module Py.

Inductive exn : Type :=
  | ValueError
  | TypeError
  | IndexError
  | KeyError
  | ParseError.

Inductive result (A : Type) : Type :=
  | Ok (a : A)
  | Err (e : exn).
Arguments Ok {A} a.
Arguments Err {A} e.

Global Instance result_ret : MRet result := λ A a, Ok a.
Global Instance result_bind : MBind result := λ A B k m,
  match m with
  | Ok a => k a
  | Err e => Err e
  end.

Definition is_ok {A : Type} (m : result A) : bool :=
  match m with Ok _ => true | Err _ => false end.

(** [ord(c)] *)
Definition ord (c : ascii) : Z := Z.of_N (N_of_ascii c).

Definition between (lo hi x : Z) : bool := (lo <=? x) && (x <=? hi).

(** [c.isalpha()]: the letters of general category L below 256. *)
Definition isalpha (c : ascii) : bool :=
  let n := ord c in
  between 65 90 n || between 97 122 n
  || (n =? 170) || (n =? 181) || (n =? 186)
  || between 192 214 n || between 216 246 n || between 248 255 n.

(** [c.isdecimal()]: the decimal digits below 256 are 0-9. *)
Definition isdecimal (c : ascii) : bool := between 48 57 (ord c).

(** [c.isdigit()]: the decimal digits and the superscripts 1, 2, 3. *)
Definition isdigit (c : ascii) : bool :=
  let n := ord c in
  isdecimal c || (n =? 178) || (n =? 179) || (n =? 185).

(** [c.isspace()] *)
Definition isspace (c : ascii) : bool :=
  let n := ord c in
  between 9 13 n || between 28 32 n || (n =? 133) || (n =? 160).

(** [c.upper()], as the code points of the resulting string: the sharp s
    becomes two letters, the micro sign and y-diaeresis leave the range. *)
Definition upper (c : ascii) : list Z :=
  let n := ord c in
  if between 97 122 n then [n - 32]
  else if n =? 181 then [924]
  else if n =? 223 then [83; 83]
  else if between 224 246 n || between 248 254 n then [n - 32]
  else if n =? 255 then [376]
  else [n].

(** [ord(s)] for a string given by its code points: one character only. *)
Definition ord_str (s : list Z) : result Z :=
  match s with
  | [n] => Ok n
  | _ => Err TypeError
  end.

(** [bool(s)] for a string that may be [None] *)
Definition truthy (s : option string) : bool :=
  match s with
  | Some (String _ _) => true
  | _ => false
  end.

(** [all(p(c) for c in s)] *)
Fixpoint str_forall (p : ascii → bool) (s : string) : bool :=
  match s with
  | EmptyString => true
  | String c s' => p c && str_forall p s'
  end.

(** The characters of [s] that satisfy [p], joined in order. *)
Fixpoint str_filter (p : ascii → bool) (s : string) : string :=
  match s with
  | EmptyString => EmptyString
  | String c s' => if p c then String c (str_filter p s') else str_filter p s'
  end.

(** [s.isdigit()]: false on the empty string. *)
Definition str_isdigit (s : string) : bool :=
  match s with
  | EmptyString => false
  | _ => str_forall isdigit s
  end.

(** Removal of the leading and of the trailing characters that satisfy
    [p]. *)
Fixpoint lstrip (p : ascii → bool) (s : string) : string :=
  match s with
  | EmptyString => EmptyString
  | String c s' => if p c then lstrip p s' else s
  end.

Fixpoint rstrip (p : ascii → bool) (s : string) : string :=
  match s with
  | EmptyString => EmptyString
  | String c s' =>
      match rstrip p s' with
      | EmptyString => if p c then EmptyString else String c EmptyString
      | r => String c r
      end
  end.

(** [s.strip()] *)
Definition strip (s : string) : string := rstrip isspace (lstrip isspace s).

(** The whitespace that [int] skips around a literal: the separators
    28-31 are not part of it. *)
Definition int_space (c : ascii) : bool :=
  let n := ord c in
  between 9 13 n || (n =? 32) || (n =? 133) || (n =? 160).

(** The digits of an integer literal: decimal digits, single underscores
    allowed between two digits. [seen] tells whether the previous
    character was a digit. *)
Fixpoint int_digits (acc : Z) (seen : bool) (s : string) : result Z :=
  match s with
  | EmptyString => if seen then Ok acc else Err ValueError
  | String c s' =>
      if isdecimal c then int_digits (acc * 10 + (ord c - 48)) true s'
      else if (ord c =? 95) && seen then int_digits acc false s'
      else Err ValueError
  end.

(** The default of [sys.get_int_max_str_digits()]. *)
Definition max_str_digits : Z := 4300.

(** The number of characters of [s] that satisfy [p]. *)
Fixpoint str_count (p : ascii → bool) (s : string) : Z :=
  match s with
  | EmptyString => 0
  | String c s' => (if p c then 1 else 0) + str_count p s'
  end.

(** A validated literal is converted unless it has more digits, the
    underscores not counted, than the limit. *)
Definition int_literal (s : string) : result Z :=
  n ← int_digits 0 false s;
  if max_str_digits <? str_count isdecimal s then Err ValueError else Ok n.

(** [int(s)] in base 10: surrounding whitespace, an optional sign, digits. *)
Definition int (s : string) : result Z :=
  match rstrip int_space (lstrip int_space s) with
  | String c s' =>
      if ord c =? 45 then n ← int_literal s'; Ok (- n)
      else if ord c =? 43 then int_literal s'
      else int_literal (String c s')
  | EmptyString => Err ValueError
  end.

(** [l[i]]: a negative index counts from the end. *)
Definition getitem {A : Type} (l : list A) (i : Z) : result A :=
  let n := Z.of_nat (length l) in
  let j := if i <? 0 then i + n else i in
  if (j <? 0) || (n <=? j) then Err IndexError
  else match l !! Z.to_nat j with
       | Some x => Ok x
       | None => Err IndexError
       end.

(** The decimal text of [n]: what [str(n)] returns when it returns. *)
Definition str_of_int (n : Z) : string := pretty n.

(** [str(n)]: refused when [n] has more digits than the limit. *)
Definition str (n : Z) : result string :=
  if max_str_digits <? Z.of_nat (String.length (str_of_int (Z.abs n)))
  then Err ValueError
  else Ok (str_of_int n).

End Py.

Import Py.

(** ** The program *)

(** *** Parsed input documents *)

(** A [<c>] element: its [r] and [t] attributes if present, and its first
    [<v>] child if present, with that child's text if it has any. *)
Record cell : Type := Cell {
  cell_r : option string;
  cell_t : option string;
  cell_v : option (option string)
}.

(** A [<row>] element is the list of its [<c>] children. *)
Definition row_elem : Type := list cell.

(** *** [_column_name_to_index] *)

Fixpoint column_loop (value : Z) (column : string) : result Z :=
  match column with
  | EmptyString => Ok (value - 1)
  | String char rest =>
      if negb (isalpha char) then Err ValueError
      else
        u ← ord_str (upper char);
        column_loop (value * 26 + (u - ord "A" + 1)) rest
  end.

Definition _column_name_to_index (column : string) : result Z :=
  column_loop 0 column.

(** *** [_iter_sheet_rows] *)

(** The alphabetic characters of the reference, joined in order:
    [filter(str.isalpha, reference)]. *)
Definition column_letters (reference : string) : string :=
  str_filter isalpha reference.

(** The body of the loop over the cells of one row; the state is the
    dictionary [cells] and [max_index]. *)
Definition cell_step (shared_strings : list string)
    (st : gmap Z string * Z) (c : cell) : result (gmap Z string * Z) :=
  let '(cells, max_index) := st in
  let reference := default "" (cell_r c) in
  let column_letters := column_letters reference in
  if bool_decide (column_letters = "") then Ok (cells, max_index)
  else
    index ← _column_name_to_index column_letters;
    let max_index := Z.max max_index index in
    let value_node := cell_v c in
    let raw_value :=
      match value_node with
      | Some text => text
      | None => Some ""
      end in
    raw_value ←
      (if bool_decide (cell_t c = Some "s") && truthy raw_value
       then
         i ← int (default "" raw_value);
         s ← getitem shared_strings i;
         Ok (Some s)
       else Ok raw_value);
    Ok (<[index := default "" raw_value]> cells, max_index).

(** Whether the loop body goes past its [continue] for a cell, and the
    index it then computes. *)
Definition resolvable (c : cell) : bool :=
  negb (bool_decide (column_letters (default "" (cell_r c)) = "")).

Definition resolved_index (c : cell) : option Z :=
  if resolvable c
  then match _column_name_to_index (column_letters (default "" (cell_r c))) with
       | Ok index => Some index
       | Err _ => None
       end
  else None.

Fixpoint cell_loop (shared_strings : list string)
    (st : gmap Z string * Z) (row : row_elem) : result (gmap Z string * Z) :=
  match row with
  | [] => Ok st
  | c :: rest =>
      st' ← cell_step shared_strings st c;
      cell_loop shared_strings st' rest
  end.

(** One iteration of the loop over the row elements: what is yielded, if
    anything. *)
Definition sheet_row (shared_strings : list string) (row : row_elem)
    : result (option (list string)) :=
  st ← cell_loop shared_strings (∅, -1) row;
  let '(cells, max_index) := st in
  if 0 <=? max_index
  then Ok (Some ((λ i, default "" (cells !! i)) <$> seqZ 0 (max_index + 1)))
  else Ok None.

(** The generator, drained by [list(...)]: the rows it yields, or the
    first exception. *)
Fixpoint sheet_rows (shared_strings : list string) (rows : list row_elem)
    : result (list (list string)) :=
  match rows with
  | [] => Ok []
  | row :: rest =>
      y ← sheet_row shared_strings row;
      ys ← sheet_rows shared_strings rest;
      Ok (match y with Some r => r :: ys | None => ys end)
  end.

Definition _iter_sheet_rows (shared_strings : list string)
    (sheet_data : option (list row_elem)) : result (list (list string)) :=
  match sheet_data with
  | None => Ok []
  | Some rows => sheet_rows shared_strings rows
  end.

(** *** [_clean_numeric] *)

Definition _clean_numeric (value : string) : result Z :=
  let cleaned := strip value in
  if bool_decide (cleaned = "") then Err ValueError
  else if negb (str_isdigit cleaned) then Err ValueError
  else int cleaned.

(** *** [load_house_data] *)

(** A cleaned entry: the dictionary with the seven fixed keys. *)
Record listing : Type := Listing {
  name : string;
  price : Z;
  building_area : Z;
  land_area : Z;
  bedrooms : Z;
  bathrooms : Z;
  garage : Z
}.

Global Instance listing_eq_dec : EqDecision listing.
Proof. solve_decision. Defined.

Definition expected_header : list string :=
  ["NO"; "NAMA RUMAH"; "HARGA"; "LB"; "LT"; "KT"; "KM"; "GRS"].

(** A row shorter than the header is extended with empty strings to the
    length of the header. *)
Definition pad_row (row : list string) : list string :=
  if (length row <? length expected_header)%nat
  then row ++ replicate (length expected_header - length row) ""
  else row.

(** The body of the [try] block. *)
Definition numeric_fields (row : list string) : result (Z * Z * Z * Z * Z * Z) :=
  c2 ← getitem row 2; price ← _clean_numeric c2;
  c3 ← getitem row 3; building_area ← _clean_numeric c3;
  c4 ← getitem row 4; land_area ← _clean_numeric c4;
  c5 ← getitem row 5; bedrooms ← _clean_numeric c5;
  c6 ← getitem row 6; bathrooms ← _clean_numeric c6;
  c7 ← getitem row 7; garage ← _clean_numeric c7;
  Ok (price, building_area, land_area, bedrooms, bathrooms, garage).

(** The loop over [data_rows]: [except ValueError: continue] drops the row,
    any other exception would escape. *)
Fixpoint clean_loop (cleaned_rows : list listing) (data_rows : list (list string))
    : result (list listing) :=
  match data_rows with
  | [] => Ok cleaned_rows
  | row :: rest =>
      let row := pad_row row in
      match numeric_fields row with
      | Err ValueError => clean_loop cleaned_rows rest
      | Err e => Err e
      | Ok (price, building_area, land_area, bedrooms, bathrooms, garage) =>
          c1 ← getitem row 1;
          clean_loop
            (cleaned_rows ++
               [Listing (strip c1) price building_area land_area
                        bedrooms bathrooms garage])
            rest
      end
  end.

Definition key : Type := string * Z * Z * Z * Z * Z * Z.

Definition entry_key (entry : listing) : key :=
  (name entry, price entry, building_area entry, land_area entry,
   bedrooms entry, bathrooms entry, garage entry).

(** The loop over [cleaned_rows], with [unique_rows] and [seen_keys]. *)
Fixpoint dedup_loop (unique_rows : list listing) (seen_keys : gset key)
    (cleaned_rows : list listing) : list listing :=
  match cleaned_rows with
  | [] => unique_rows
  | entry :: rest =>
      let k := entry_key entry in
      if bool_decide (k ∈ seen_keys) then dedup_loop unique_rows seen_keys rest
      else dedup_loop (unique_rows ++ [entry]) ({[k]} ∪ seen_keys) rest
  end.

(** [load_house_data] from the point where [rows] has been collected. *)
Definition load_rows (rows : list (list string)) : result (list listing) :=
  match rows with
  | [] => Err ValueError
  | header :: data_rows =>
      if bool_decide (header ≠ expected_header) then Err ValueError
      else
        cleaned_rows ← clean_loop [] data_rows;
        Ok (dedup_loop [] ∅ cleaned_rows)
  end.

Definition load_house_data (shared_strings : list string)
    (sheet_data : option (list row_elem)) : result (list listing) :=
  rows ← _iter_sheet_rows shared_strings sheet_data;
  load_rows rows.

(** *** [export_to_csv] *)

Definition fieldnames : list string :=
  ["name"; "price"; "building_area"; "land_area"; "bedrooms"; "bathrooms"; "garage"].

Definition comma : ascii := "044"%char.
Definition dquote : ascii := "034"%char.
Definition lineterminator : string := String "013" (String "010" "").

(** The writer of the default dialect quotes a field that holds the
    delimiter, the quote character or a character of the line terminator,
    and doubles the quote characters inside it. *)
Definition needs_quote (c : ascii) : bool :=
  let n := ord c in (n =? 44) || (n =? 34) || (n =? 13) || (n =? 10).

Fixpoint double_quotes (s : string) : string :=
  match s with
  | EmptyString => EmptyString
  | String c s' =>
      if ord c =? 34 then String c (String c (double_quotes s'))
      else String c (double_quotes s')
  end.

Definition csv_field (s : string) : string :=
  if str_forall (λ c, negb (needs_quote c)) s then s
  else String dquote (double_quotes s) +:+ String dquote "".

Fixpoint csv_join (fields : list string) : string :=
  match fields with
  | [] => ""
  | [f] => f
  | f :: rest => f +:+ String comma (csv_join rest)
  end.

(** [writer.writerow(fields)] appends one terminated line. *)
Definition csv_line (fields : list string) : string :=
  csv_join (csv_field <$> fields) +:+ lineterminator.

(** The values of a row dictionary in [fieldnames] order, as the writer
    renders them. *)
Definition row_values (row : listing) : list string :=
  [name row; str_of_int (price row); str_of_int (building_area row);
   str_of_int (land_area row); str_of_int (bedrooms row);
   str_of_int (bathrooms row); str_of_int (garage row)].

(** The same values as the writer obtains them, the numbers through
    [str]: the first number that [str] refuses raises. *)
Definition render_row (row : listing) : result (list string) :=
  price ← str (price row);
  building_area ← str (building_area row);
  land_area ← str (land_area row);
  bedrooms ← str (bedrooms row);
  bathrooms ← str (bathrooms row);
  garage ← str (garage row);
  Ok [name row; price; building_area; land_area; bedrooms; bathrooms; garage].

(** The loop of [writer.writerow] calls: [handle] is the text written so
    far. A row that cannot be rendered raises before any of it is
    written. *)
Fixpoint write_rows (handle : string) (rows : list listing)
    : result unit * string :=
  match rows with
  | [] => (Ok (), handle)
  | row :: rest =>
      match render_row row with
      | Err e => (Err e, handle)
      | Ok values => write_rows (handle +:+ csv_line values) rest
      end
  end.

(** The file system maps a path to the text of the file there. Opening
    with mode [w] creates or truncates the file; leaving the [with] block,
    by its end or by an exception, leaves in the file what was written. *)
Definition export_to_csv (rows : list listing) (destination : string)
    (fs : gmap string string) : result unit * gmap string string :=
  match rows with
  | [] => (Err ValueError, fs)
  | _ =>
      let handle := "" in
      let handle := handle +:+ csv_line fieldnames in
      let '(outcome, handle) := write_rows handle rows in
      (outcome, <[destination := handle]> fs)
  end.

(** [main] once the two paths are chosen: the exception, if any, and the
    file system afterwards. *)
Definition main (shared_strings : list string) (sheet_data : option (list row_elem))
    (destination : string) (fs : gmap string string)
    : result unit * gmap string string :=
  match load_house_data shared_strings sheet_data with
  | Err e => (Err e, fs)
  | Ok rows => export_to_csv rows destination fs
  end.

(** *** Element trees and the documents of the workbook *)

(** An element as the XML parser returns it: its qualified tag, its
    attributes, its text if it has any, and its children in document
    order. *)
#[warnings="-register-all"]
Inductive element : Type :=
  | Element (tag : string) (attrib : gmap string string)
            (text : option string) (children : list element).

Definition elem_tag (e : element) : string :=
  match e with Element tag _ _ _ => tag end.
Definition elem_text (e : element) : option string :=
  match e with Element _ _ text _ => text end.
Definition elem_children (e : element) : list element :=
  match e with Element _ _ _ children => children end.

(** The tag that the prefix [t:] of [NS] gives to a local name. *)
Definition ns (local : string) : string :=
  "{http://schemas.openxmlformats.org/spreadsheetml/2006/main}" +:+ local.

(** [e.findall(path, NS)] for a path that is a tag: the children with that
    tag, in order. *)
Definition findall (tag : string) (e : element) : list element :=
  filter (λ child, elem_tag child = tag) (elem_children e).

(** [e.find(path, NS)]: the first such child. *)
Definition find (tag : string) (e : element) : option element :=
  head (findall tag e).

(** [e.iter()]: the element and all that is beneath it, in document
    order. *)
Fixpoint iter (e : element) : list element :=
  match e with
  | Element _ _ _ children => e :: concat (map iter children)
  end.

(** [e.findall(path, NS)] for a path that starts with [.//]: the elements
    with that tag on all levels beneath [e]. *)
Definition findall_deep (tag : string) (e : element) : list element :=
  filter (λ node, elem_tag node = tag) (concat (map iter (elem_children e))).

(** [sep.join(fragments)] with the empty separator: a fragment that is
    [None] is a [TypeError]. *)
Fixpoint join (fragments : list (option string)) : result string :=
  match fragments with
  | [] => Ok ""
  | Some fragment :: rest => joined ← join rest; Ok (fragment +:+ joined)
  | None :: _ => Err TypeError
  end.

(** *** [_load_shared_strings] *)

(** The string of one [si] element. *)
Definition shared_string_of (shared_string : element) : result string :=
  let fragments :=
    (λ node, Some (default "" (elem_text node)))
      <$> findall_deep (ns "t") shared_string in
  let fragments :=
    match fragments with
    | [] =>
        let text_node := find (ns "t") shared_string in
        [match text_node with
         | Some node => elem_text node
         | None => Some ""
         end]
    | _ => fragments
    end in
  join fragments.





(** *** From the sheet document to rows of cells *)





(** *** [main] with its arguments *)



(** ** Specification-side definitions

    These follow the words of the specification, not the code; the
    theorems below compare them with the program. *)

Module Spec.

(** Position of [c] in [alphabet], counted from 1; 0 when absent. *)
Fixpoint position (c : ascii) (alphabet : string) : Z :=
  match alphabet with
  | EmptyString => 0
  | String a rest =>
      if bool_decide (c = a) then 1
      else match position c rest with
           | 0 => 0
           | p => p + 1
           end
  end.

(** The digit of a letter, 1 to 26, in either case. *)
Definition letter_value (c : ascii) : Z :=
  match position c "ABCDEFGHIJKLMNOPQRSTUVWXYZ" with
  | 0 => position c "abcdefghijklmnopqrstuvwxyz"
  | p => p
  end.

(** One of the 52 letters A-Z, a-z. *)
Definition is_letter (c : ascii) : bool :=
  bool_decide (letter_value c ≠ 0).

(** The letters read as a number in base 26, most significant first. *)
Fixpoint base26 (acc : Z) (letters : string) : Z :=
  match letters with
  | EmptyString => acc
  | String c rest => base26 (acc * 26 + letter_value c) rest
  end.

(** The digits of a string of letters, most significant first, and the
    number that a list of digits denotes in base 26. *)
Definition digits (column : string) : list Z :=
  letter_value <$> list_ascii_of_string column.

Definition horner (acc : Z) (ds : list Z) : Z :=
  foldl (λ a d, a * 26 + d) acc ds.

(** A digit-only text read in base 10, most significant first. *)
Fixpoint decimal_value (acc : Z) (digits : string) : Z :=
  match digits with
  | EmptyString => acc
  | String c rest => decimal_value (acc * 10 + (ord c - ord "0")) rest
  end.

(** The text of column [i] of a row, empty when the row is shorter. *)
Definition column (row : list string) (i : nat) : string :=
  default "" (row !! i).

(** A numeric column is accepted when, trimmed, it is non-empty, made of
    the digits 0-9 only and not longer than the limit on digits. *)
Definition numeric_ok (text : string) : bool :=
  negb (bool_decide (strip text = "")) && str_forall isdecimal (strip text)
  && (Z.of_nat (String.length (strip text)) <=? max_str_digits).

Definition number (text : string) : Z := decimal_value 0 (strip text).

(** The record of a row, if the six numeric columns are accepted. *)
Definition clean_row (row : list string) : option listing :=
  if forallb (λ i, numeric_ok (column row i)) [2; 3; 4; 5; 6; 7]%nat
  then Some (Listing (strip (column row 1))
               (number (column row 2)) (number (column row 3))
               (number (column row 4)) (number (column row 5))
               (number (column row 6)) (number (column row 7)))
  else None.

(** The texts of a list, one after the other. *)
Fixpoint lines (texts : list string) : string :=
  match texts with
  | [] => ""
  | text :: rest => text +:+ lines rest
  end.

(** The text of a fragment of a shared string, empty when missing. *)
Definition fragment_text (node : element) : string :=
  default "" (elem_text node).

(** The invariant of a listing record: six numbers that are not negative
    and a name without surrounding whitespace. *)
Definition well_formed (entry : listing) : Prop :=
  strip (name entry) = name entry
  ∧ 0 ≤ price entry ∧ 0 ≤ building_area entry ∧ 0 ≤ land_area entry
  ∧ 0 ≤ bedrooms entry ∧ 0 ≤ bathrooms entry ∧ 0 ≤ garage entry.

(** A number whose decimal text is within the limit on digits. *)
Definition printable (n : Z) : Prop :=
  Z.of_nat (String.length (str_of_int (Z.abs n))) ≤ max_str_digits.

Definition all_printable (entry : listing) : Prop :=
  printable (price entry) ∧ printable (building_area entry)
  ∧ printable (land_area entry) ∧ printable (bedrooms entry)
  ∧ printable (bathrooms entry) ∧ printable (garage entry).



(** A text of [n] times the character [c]. *)
Fixpoint repeated (c : ascii) (n : nat) : string :=
  match n with
  | O => EmptyString
  | S n' => String c (repeated c n')
  end.

(** The leading run of alphabetic characters of a reference. *)
Fixpoint alpha_prefix (reference : string) : string :=
  match reference with
  | EmptyString => EmptyString
  | String c rest => if isalpha c then String c (alpha_prefix rest) else EmptyString
  end.

End Spec.

(** ** Facts about the primitives *)

Section py_facts.

Ltac by_cases_on c :=
  destruct c as [[] [] [] [] [] [] [] []]; vm_compute; try done; try lia.

Lemma isdecimal_isdigit c : isdecimal c = true → isdigit c = true.
Proof. unfold isdigit. by intros ->. Qed.

Lemma isdigit_not_sign c :
  isdigit c = true → (ord c =? 45) = false ∧ (ord c =? 43) = false.
Proof. by_cases_on c. Qed.

Lemma isdigit_not_decimal c :
  isdigit c = true → isdecimal c = false → (ord c =? 95) = false.
Proof. by_cases_on c. Qed.

Lemma isdecimal_bounds c : isdecimal c = true → 0 ≤ ord c - 48 ≤ 9.
Proof. by_cases_on c. Qed.

Lemma isalpha_upper_ge c u :
  isalpha c = true → ord_str (upper c) = Ok u → 65 ≤ u.
Proof.
  intros Ha Hu. destruct c as [[] [] [] [] [] [] [] []];
    vm_compute in Ha; try done; vm_compute in Hu; simplify_eq; lia.
Qed.

Lemma letter_isalpha c : Spec.is_letter c = true → isalpha c = true.
Proof. by_cases_on c. Qed.

Lemma letter_upper c :
  Spec.is_letter c = true →
  ord_str (upper c) = Ok (ord "A" - 1 + Spec.letter_value c).
Proof. by_cases_on c. Qed.

Lemma letter_value_bounds c :
  Spec.is_letter c = true → 1 ≤ Spec.letter_value c ≤ 26.
Proof. by_cases_on c. Qed.

Lemma isdigit_not_int_space c : isdigit c = true → int_space c = false.
Proof. by_cases_on c. Qed.

Lemma lstrip_id p c s : p c = false → lstrip p (String c s) = String c s.
Proof. simpl. by intros ->. Qed.

Lemma rstrip_id p s : str_forall (λ c, negb (p c)) s = true → rstrip p s = s.
Proof.
  induction s as [|c s IH]; simpl; [done|].
  intros [Hc Hs]%andb_prop. rewrite (IH Hs).
  apply negb_true_iff in Hc. rewrite Hc. by destruct s.
Qed.

Lemma str_forall_impl (p q : ascii → bool) s :
  (∀ c, p c = true → q c = true) →
  str_forall p s = true → str_forall q s = true.
Proof.
  intros Hpq. induction s as [|c s IH]; simpl; [done|].
  intros [Hc Hs]%andb_prop. by rewrite (Hpq _ Hc), (IH Hs).
Qed.

Lemma strip_digits p s :
  (∀ c, isdigit c = true → p c = false) →
  str_forall isdigit s = true → rstrip p (lstrip p s) = s.
Proof.
  intros Hp Hs.
  assert (str_forall (λ c, negb (p c)) s = true) as Hns.
  { revert Hs. apply str_forall_impl. intros c Hc. by rewrite (Hp c Hc). }
  destruct s as [|c s]; [done|].
  simpl in Hns. apply andb_prop in Hns as [Hc Hs'].
  apply negb_true_iff in Hc. rewrite (lstrip_id _ _ _ Hc).
  apply rstrip_id. simpl. by rewrite Hc, Hs'.
Qed.

End py_facts.

(** ** The column resolver *)

Section column_resolver.

Lemma column_loop_letters column value :
  str_forall Spec.is_letter column = true →
  column_loop value column = Ok (Spec.base26 value column - 1).
Proof.
  revert value. induction column as [|c column IH]; intros value; simpl; [done|].
  intros [Hc Hs]%andb_prop.
  rewrite (letter_isalpha c Hc), (letter_upper c Hc). simpl.
  replace (value * 26 + (ord "A" - 1 + Spec.letter_value c - ord "A" + 1))
    with (value * 26 + Spec.letter_value c) by lia.
  by apply IH.
Qed.

Lemma base26_values s t value :
  Spec.letter_value <$> list_ascii_of_string s
    = Spec.letter_value <$> list_ascii_of_string t →
  Spec.base26 value s = Spec.base26 value t.
Proof.
  revert t value. induction s as [|c s IH]; intros [|d t] value; simpl; try done.
  intros [= Hcd Hst]. rewrite Hcd. by apply IH.
Qed.

(** For any alphabetic string that resolves, the index is at least
    [value - 1], and non-negative once a letter has been read. *)
Lemma column_loop_ge column value index :
  0 ≤ value → column_loop value column = Ok index → value - 1 ≤ index.
Proof.
  revert value. induction column as [|c column IH]; intros value Hv; simpl.
  - intros [= <-]. lia.
  - destruct (isalpha c) eqn:Hc; simpl; [|done].
    destruct (ord_str (upper c)) as [u|] eqn:Hu; simpl; [|done].
    pose proof (isalpha_upper_ge c u Hc Hu) as Hge.
    change (ord "A") with 65. intros Hloop.
    apply IH in Hloop; lia.
Qed.

Lemma column_index_nonneg column index :
  column ≠ "" → _column_name_to_index column = Ok index → 0 ≤ index.
Proof.
  destruct column as [|c column]; [done|]. intros _.
  unfold _column_name_to_index. simpl.
  destruct (isalpha c) eqn:Hc; simpl; [|done].
  destruct (ord_str (upper c)) as [u|] eqn:Hu; simpl; [|done].
  pose proof (isalpha_upper_ge c u Hc Hu) as Hge.
  change (ord "A") with 65. intros Hloop.
  apply column_loop_ge in Hloop; lia.
Qed.

(** The resolver never raises [IndexError]; on a string of alphabetic
    characters it never raises [ValueError] either. *)
Lemma column_loop_alpha column value :
  str_forall isalpha column = true →
  column_loop value column ≠ Err ValueError
  ∧ column_loop value column ≠ Err IndexError.
Proof.
  revert value. induction column as [|c column IH]; intros value; simpl; [done|].
  intros [Hc Hs]%andb_prop. rewrite Hc. simpl.
  destruct (upper c) as [|u [|u' us]]; simpl; try done.
  by apply IH.
Qed.

Lemma str_app_empty_r s : s +:+ "" = s.
Proof.
  induction s as [|c s IH]; [done|].
  change (String c s +:+ "") with (String c (s +:+ "")). by rewrite IH.
Qed.

Lemma str_filter_forall p s : str_forall p (str_filter p s) = true.
Proof.
  induction s as [|c s IH]; simpl; [done|].
  destruct (p c) eqn:Hc; simpl; [by rewrite Hc|done].
Qed.

Lemma str_filter_id p s : str_forall p s = true → str_filter p s = s.
Proof.
  induction s as [|c s IH]; simpl; [done|].
  intros [Hc Hs]%andb_prop. by rewrite Hc, IH.
Qed.

Lemma str_filter_none p s :
  str_forall (λ c, negb (p c)) s = true → str_filter p s = "".
Proof.
  induction s as [|c s IH]; simpl; [done|].
  intros [Hc Hs]%andb_prop. apply negb_true_iff in Hc. by rewrite Hc, IH.
Qed.

End column_resolver.

(** C4. For every non-empty string of letters, [_column_name_to_index]
    returns the letters read as a base-26 number with digit values 1 to
    26, minus 1, and that index is not negative. The letters are the 52
    characters A-Z and a-z, those that have a place in the alphabet; the
    digit of a letter is that place, in either case, so two strings with
    the same letters up to case resolve alike. "A" gives 0, "Z" 25, "AA"
    26 and "AB" 27, in lower case too. *)
Theorem column_name_to_index_base26 (column : string) :
  column ≠ "" →
  str_forall Spec.is_letter column = true →
  _column_name_to_index column = Ok (Spec.base26 0 column - 1)
  ∧ 0 ≤ Spec.base26 0 column - 1
  ∧ (∀ c, Spec.is_letter c = true → 1 ≤ Spec.letter_value c ≤ 26)
  ∧ (∀ other,
       str_forall Spec.is_letter other = true →
       Spec.letter_value <$> list_ascii_of_string other
         = Spec.letter_value <$> list_ascii_of_string column →
       _column_name_to_index other = _column_name_to_index column)
  ∧ _column_name_to_index "A" = Ok 0
  ∧ _column_name_to_index "Z" = Ok 25
  ∧ _column_name_to_index "AA" = Ok 26
  ∧ _column_name_to_index "AB" = Ok 27
  ∧ _column_name_to_index "a" = Ok 0
  ∧ _column_name_to_index "z" = Ok 25
  ∧ _column_name_to_index "aA" = Ok 26
  ∧ _column_name_to_index "ab" = Ok 27.
Proof.
  intros Hne Hletters.
  assert (_column_name_to_index column = Ok (Spec.base26 0 column - 1)) as Hcol
    by apply column_loop_letters, Hletters.
  split_and!; try done.
  - eapply column_index_nonneg; eauto.
  - apply letter_value_bounds.
  - intros other Hother Hsame. rewrite Hcol.
    unfold _column_name_to_index. rewrite (column_loop_letters _ _ Hother).
    by rewrite (base26_values other column 0 Hsame).
Qed.

Lemma column_name_to_index_base26_witness :
  "BC" ≠ ""
  ∧ str_forall Spec.is_letter "BC" = true
  ∧ _column_name_to_index "BC" = Ok (Spec.base26 0 "BC" - 1).
Proof.
  split; [discriminate|]. split; [reflexivity|].
  exact (proj1 (column_name_to_index_base26 "BC" ltac:(discriminate) eq_refl)).
Defined.

(** ** The row extractor *)

Section row_extractor.

Implicit Types (shared : list string) (c : cell) (cells : gmap Z string).

Lemma cell_step_skip shared st c :
  resolvable c = false → cell_step shared st c = Ok st.
Proof.
  unfold resolvable, cell_step. destruct st as [cells m].
  intros Hr%negb_false_iff. by rewrite Hr.
Qed.

(** A cell past the [continue] either raises, whatever the state, or
    stores one text under its index, whatever the state. *)
Lemma cell_step_resolved shared c :
  resolvable c = true →
  (∃ e, ∀ cells m, cell_step shared (cells, m) c = Err e)
  ∨ (∃ index text,
       resolved_index c = Some index
       ∧ ∀ cells m,
           cell_step shared (cells, m) c
           = Ok (<[index := text]> cells, Z.max m index)).
Proof.
  intros Hr.
  assert (bool_decide (column_letters (default "" (cell_r c)) = "") = false)
    as Hl by by apply negb_true_iff.
  assert (∃ value : result (option string), ∀ cells m,
            cell_step shared (cells, m) c
            = (index ← _column_name_to_index
                         (column_letters (default "" (cell_r c)));
               raw_value ← value;
               Ok (<[index := default "" raw_value]> cells, Z.max m index)))
    as [value Hstep].
  { eexists. intros cells m. unfold cell_step. rewrite Hl. reflexivity. }
  unfold resolved_index. rewrite Hr.
  destruct (_column_name_to_index _) as [index|e].
  - destruct value as [raw_value|e].
    + right. exists index, (default "" raw_value). split; [done|].
      intros cells m. by rewrite Hstep.
    + left. exists e. intros cells m. by rewrite Hstep.
  - left. exists e. intros cells m. by rewrite Hstep.
Qed.

Lemma cell_step_ok shared c st0 :
  resolvable c = true →
  is_ok (cell_step shared st0 c) = true →
  ∃ index text,
    resolved_index c = Some index
    ∧ ∀ cells m,
        cell_step shared (cells, m) c
        = Ok (<[index := text]> cells, Z.max m index).
Proof.
  intros Hr Hok. destruct (cell_step_resolved shared c Hr) as [[e He]|H]; [|done].
  destruct st0 as [cells0 m0]. by rewrite He in Hok.
Qed.

Lemma resolved_index_resolvable c index :
  resolved_index c = Some index → resolvable c = true ∧ 0 ≤ index.
Proof.
  unfold resolved_index. destruct (resolvable c) eqn:Hr; [|done].
  destruct (_column_name_to_index _) as [i|] eqn:Hi; [|done].
  intros [= <-]. split; [done|].
  eapply column_index_nonneg; [|exact Hi].
  unfold resolvable in Hr. apply negb_true_iff, bool_decide_eq_false in Hr. done.
Qed.

(** The loop over the cells of a row in which no cell raises: the final
    [max_index] is the initial one or the largest index of a cell, and
    the dictionary changes only at the indices of the cells. *)
Lemma cell_loop_spec shared (row : row_elem) cells m :
  (∀ c, c ∈ row → resolvable c = true →
        is_ok (cell_step shared (∅, -1) c) = true) →
  ∃ cells' m',
    cell_loop shared (cells, m) row = Ok (cells', m')
    ∧ (m' = m ∨ ∃ c, c ∈ row ∧ resolved_index c = Some m')
    ∧ m ≤ m'
    ∧ (∀ c i, c ∈ row → resolved_index c = Some i → i ≤ m')
    ∧ (∀ i, (∀ c, c ∈ row → resolved_index c ≠ Some i) →
            cells' !! i = cells !! i).
Proof.
  revert cells m. induction row as [|c row IH]; intros cells m Hok.
  - exists cells, m. split_and!; [done|by left|lia| |done].
    intros c i Hc. by apply elem_of_nil in Hc.
  - cbn [cell_loop]. destruct (resolvable c) eqn:Hr.
    + destruct (cell_step_ok shared c _ Hr (Hok c ltac:(left) Hr))
        as (index & text & Hidx & Hstep).
      rewrite Hstep. simpl.
      destruct (IH (<[index := text]> cells) (Z.max m index))
        as (cells' & m' & Hloop & Hmax & Hle & Hub & Hframe).
      { intros c' Hc'. apply Hok. by right. }
      exists cells', m'. split_and!; [done| |lia| |].
      * destruct Hmax as [->|(c' & Hc' & Hm')].
        -- destruct (Z.max_spec m index) as [[_ ->]|[_ ->]];
             [right; exists c; split; [left|done] | by left].
        -- right. exists c'. split; [by right|done].
      * intros c' i [->|Hc']%elem_of_cons Hi; [|by eapply Hub].
        rewrite Hidx in Hi. injection Hi as <-. lia.
      * intros i Hi. rewrite Hframe.
        -- apply lookup_insert_ne. intros ->. by apply (Hi c); [left|].
        -- intros c' Hc'. apply Hi. by right.
    + rewrite (cell_step_skip _ _ _ Hr). simpl.
      destruct (IH cells m) as (cells' & m' & Hloop & Hmax & Hle & Hub & Hframe).
      { intros c' Hc'. apply Hok. by right. }
      assert (resolved_index c = None) as Hnone
        by (unfold resolved_index; by rewrite Hr).
      exists cells', m'. split_and!; [done| |done| |].
      * destruct Hmax as [->|(c' & Hc' & Hm')]; [by left|].
        right. exists c'. split; [by right|done].
      * intros c' i [->|Hc']%elem_of_cons Hi; [congruence|by eapply Hub].
      * intros i Hi. apply Hframe. intros c' Hc'. apply Hi. by right.
Qed.

(** A row without a resolvable cell goes through the loop untouched. *)
Lemma cell_loop_skip shared (row : row_elem) st :
  (∀ c, c ∈ row → resolvable c = false) →
  cell_loop shared st row = Ok st.
Proof.
  induction row as [|c row IH]; intros Hrow; [done|].
  cbn [cell_loop]. rewrite cell_step_skip by (apply Hrow; left). simpl.
  apply IH. intros c' Hc'. apply Hrow. by right.
Qed.

Lemma column_letters_none reference :
  str_forall (λ ch, negb (isalpha ch)) reference = true →
  column_letters reference = "".
Proof. apply str_filter_none. Qed.

Lemma column_letters_app r1 r2 :
  column_letters (r1 +:+ r2) = column_letters r1 +:+ column_letters r2.
Proof.
  unfold column_letters. induction r1 as [|ch r1 IH]; simpl; [done|].
  destruct (isalpha ch); simpl; by rewrite IH.
Qed.

Lemma alpha_prefix_app prefix rest :
  str_forall isalpha prefix = true →
  str_forall (λ ch, negb (isalpha ch)) rest = true →
  Spec.alpha_prefix (prefix +:+ rest) = prefix.
Proof.
  intros Hp Hr. induction prefix as [|ch prefix IH]; simpl.
  - destruct rest as [|ch rest]; simpl; [done|].
    simpl in Hr. apply andb_prop in Hr as [Hch%negb_true_iff _]. by rewrite Hch.
  - simpl in Hp. apply andb_prop in Hp as [Hch Hp]. by rewrite Hch, IH.
Qed.

Lemma getitem_out_of_range {A} (l : list A) i :
  Z.of_nat (length l) ≤ i ∨ i < - Z.of_nat (length l) →
  getitem l i = Err IndexError.
Proof.
  intros Hi. unfold getitem.
  destruct (i <? 0) eqn:Hneg.
  - apply Z.ltb_lt in Hneg.
    replace (i + Z.of_nat (length l) <? 0) with true; [done|].
    symmetry. apply Z.ltb_lt. lia.
  - apply Z.ltb_ge in Hneg.
    replace (Z.of_nat (length l) <=? i) with true; [by rewrite orb_true_r|].
    symmetry. apply Z.leb_le. lia.
Qed.

Lemma getitem_in_range {A} (l : list A) i x :
  0 ≤ i → l !! Z.to_nat i = Some x → getitem l i = Ok x.
Proof.
  intros Hi Hx. unfold getitem.
  pose proof (lookup_lt_Some _ _ _ Hx) as Hlt.
  replace (i <? 0) with false by (symmetry; apply Z.ltb_ge; lia).
  replace (i <? 0) with false by (symmetry; apply Z.ltb_ge; lia).
  replace (Z.of_nat (length l) <=? i) with false
    by (symmetry; apply Z.leb_gt; lia).
  simpl. by rewrite Hx.
Qed.

Lemma getitem_negative {A} (l : list A) i x :
  i < 0 → 0 ≤ i + Z.of_nat (length l) →
  l !! Z.to_nat (i + Z.of_nat (length l)) = Some x → getitem l i = Ok x.
Proof.
  intros Hneg Hi Hx. unfold getitem.
  replace (i <? 0) with true by (symmetry; apply Z.ltb_lt; lia).
  replace (i + Z.of_nat (length l) <? 0) with false
    by (symmetry; apply Z.ltb_ge; lia).
  replace (Z.of_nat (length l) <=? i + Z.of_nat (length l)) with false
    by (symmetry; apply Z.leb_gt; lia).
  simpl. by rewrite Hx.
Qed.

(** A shared-string cell whose value parses to [i]: an index at or
    beyond the length of the table, or below its negation, raises
    [IndexError]; an index from [-len] to [-1] selects an entry counted
    from the end. *)
Lemma shared_string_index_cases shared cells m c text i index :
  cell_t c = Some "s" → cell_v c = Some (Some text) →
  text ≠ "" → int text = Ok i →
  _column_name_to_index (column_letters (default "" (cell_r c))) = Ok index →
  resolvable c = true →
  (Z.of_nat (length shared) ≤ i ∨ i < - Z.of_nat (length shared) →
   cell_step shared (cells, m) c = Err IndexError)
  ∧ (∀ x, i < 0 → 0 ≤ i + Z.of_nat (length shared) →
          shared !! Z.to_nat (i + Z.of_nat (length shared)) = Some x →
          cell_step shared (cells, m) c
          = Ok (<[index := x]> cells, Z.max m index))
  ∧ (∀ x, 0 ≤ i → shared !! Z.to_nat i = Some x →
          cell_step shared (cells, m) c
          = Ok (<[index := x]> cells, Z.max m index)).
Proof.
  intros Ht Hv Hne Hint Hidx Hr.
  assert (bool_decide (column_letters (default "" (cell_r c)) = "") = false)
    as Hl by by apply negb_true_iff.
  assert (truthy (Some text) = true) as Htruthy by by destruct text.
  assert (∀ y : result string,
    getitem shared i = y →
    cell_step shared (cells, m) c
    = (s ← y; Ok (<[index := s]> cells, Z.max m index))) as Hstep.
  { intros y Hy. unfold cell_step.
    rewrite Hl, Hidx, Ht, Hv, bool_decide_eq_true_2, Htruthy by done.
    simpl. rewrite Hint. simpl. rewrite Hy. by destruct y. }
  split_and!.
  - intros Hi. by rewrite (Hstep _ (getitem_out_of_range shared i Hi)).
  - intros x Hneg Hi Hx. by rewrite (Hstep _ (getitem_negative shared i x Hneg Hi Hx)).
  - intros x Hi Hx. by rewrite (Hstep _ (getitem_in_range shared i x Hi Hx)).
Qed.

(** An exception in a row ends the whole generator. *)
Lemma sheet_rows_abort shared (row : row_elem) rest e :
  sheet_row shared row = Err e → sheet_rows shared (row :: rest) = Err e.
Proof. intros Hrow. cbn [sheet_rows]. by rewrite Hrow. Qed.

End row_extractor.

Section rows_of_the_sheet.

Implicit Types (shared : list string) (row : row_elem).

Lemma result_bind_ok {A B} (a : A) (k : A → result B) : (Ok a ≫= k) = k a.
Proof. done. Qed.

(** A row element with a resolvable cell, none of whose cells raises. *)
Lemma sheet_row_emits shared row :
  (∃ c, c ∈ row ∧ resolvable c = true) →
  (∀ c, c ∈ row → resolvable c = true →
        is_ok (cell_step shared (∅, -1) c) = true) →
  ∃ r mx,
    sheet_row shared row = Ok (Some r)
    ∧ (∃ c, c ∈ row ∧ resolved_index c = Some mx)
    ∧ (∀ c i, c ∈ row → resolved_index c = Some i → i ≤ mx)
    ∧ Z.of_nat (length r) = mx + 1
    ∧ (∀ i : nat, (i < length r)%nat →
         (∀ c, c ∈ row → resolved_index c ≠ Some (Z.of_nat i)) →
         r !! i = Some "").
Proof.
  intros (c0 & Hc0 & Hr0) Hok.
  destruct (cell_loop_spec shared row ∅ (-1) Hok)
    as (cells & mx & Hloop & Hmax & Hle & Hub & Hframe).
  destruct (cell_step_ok shared c0 _ Hr0 (Hok c0 Hc0 Hr0))
    as (i0 & text & Hi0 & _).
  pose proof (Hub c0 i0 Hc0 Hi0) as Hi0mx.
  apply resolved_index_resolvable in Hi0 as [_ Hi0].
  assert (0 ≤ mx) as Hmx by lia.
  destruct Hmax as [->|Hmax]; [lia|].
  eexists _, mx. unfold sheet_row. rewrite Hloop. simpl.
  replace (0 <=? mx) with true by (symmetry; apply Z.leb_le; lia).
  split_and!; [done|done|done| |].
  - rewrite length_fmap, length_seqZ. lia.
  - rewrite length_fmap, length_seqZ. intros i Hi Hfree.
    rewrite list_lookup_fmap, lookup_seqZ_lt by lia. simpl.
    rewrite Z.add_0_l, (Hframe _ Hfree). by rewrite lookup_empty.
Qed.

Lemma sheet_row_omitted shared row :
  (∀ c, c ∈ row → resolvable c = false) → sheet_row shared row = Ok None.
Proof. intros Hrow. unfold sheet_row. by rewrite cell_loop_skip. Qed.

(** A row element none of whose cells raises yields a row or nothing. *)
Lemma sheet_row_ok shared row :
  (∀ c, c ∈ row → resolvable c = true →
        is_ok (cell_step shared (∅, -1) c) = true) →
  ∃ y, sheet_row shared row = Ok y.
Proof.
  intros Hok.
  destruct (cell_loop_spec shared row ∅ (-1) Hok)
    as (cells & mx & Hloop & _).
  unfold sheet_row. rewrite Hloop, result_bind_ok.
  destruct (0 <=? mx); by eexists.
Qed.

Lemma sheet_rows_ok shared (rows : list row_elem) :
  (∀ row c, row ∈ rows → c ∈ row → resolvable c = true →
            is_ok (cell_step shared (∅, -1) c) = true) →
  ∃ out, sheet_rows shared rows = Ok out.
Proof.
  induction rows as [|row rows IH]; intros Hok; [by eexists|].
  cbn [sheet_rows].
  destruct (sheet_row_ok shared row) as [y ->].
  { intros c. apply Hok. left. }
  destruct IH as [out ->].
  { intros row' c Hrow'. apply Hok. by right. }
  rewrite !result_bind_ok. by eexists.
Qed.

Lemma sheet_rows_app shared (pre post : list row_elem) :
  sheet_rows shared (pre ++ post)
  = (out_pre ← sheet_rows shared pre;
     out_post ← sheet_rows shared post;
     Ok (out_pre ++ out_post)).
Proof.
  induction pre as [|row pre IH]; cbn [app sheet_rows].
  - rewrite result_bind_ok. by destruct (sheet_rows shared post).
  - destruct (sheet_row shared row) as [y|e]; [|done]. rewrite !result_bind_ok.
    rewrite IH. destruct (sheet_rows shared pre) as [out_pre|e]; [|done].
    rewrite !result_bind_ok.
    destruct (sheet_rows shared post) as [out_post|e]; [|done].
    rewrite !result_bind_ok. by destruct y.
Qed.

End rows_of_the_sheet.

(** C5 (as stated): a row element with a cell that has a resolvable
    column does not always make the extractor emit a list. The only cell
    below is at "A1" and refers to the shared string 7 of an empty table:
    the extraction ends with [IndexError] and nothing is emitted. *)
Lemma raising_cell_no_row :
  (∃ c, c ∈ [Cell (Some "A1") (Some "s") (Some (Some "7"))]
        ∧ resolvable c = true)
  ∧ _iter_sheet_rows [] (Some [[Cell (Some "A1") (Some "s") (Some (Some "7"))]])
    = Err IndexError.
Proof. split; [|done]. eexists. split; [left|done]. Qed.

(** C5 (amended). In a sheet none of whose cells raises, a row element
    with at least one resolvable cell makes the extractor emit, at the
    place of the row element among the rows emitted, a list whose length
    is the largest resolved column index plus 1 and which holds the empty
    string at every position that no cell refers to. A row element without
    a resolvable cell is passed over: the extractor returns what it
    returns without that row element. Cells at "A1" and "C1" give three
    texts, the middle one empty. *)
Theorem sheet_row_dense (shared_strings : list string)
    (pre post : list row_elem) (row : row_elem) :
  ((∃ c, c ∈ row ∧ resolvable c = true) →
   (∀ row' c, row' ∈ pre ++ row :: post → c ∈ row' → resolvable c = true →
              is_ok (cell_step shared_strings (∅, -1) c) = true) →
   ∃ out_pre r out_post mx,
     _iter_sheet_rows shared_strings (Some pre) = Ok out_pre
     ∧ _iter_sheet_rows shared_strings (Some post) = Ok out_post
     ∧ _iter_sheet_rows shared_strings (Some (pre ++ row :: post))
       = Ok (out_pre ++ r :: out_post)
     ∧ (∃ c, c ∈ row ∧ resolved_index c = Some mx)
     ∧ (∀ c i, c ∈ row → resolved_index c = Some i → i ≤ mx)
     ∧ Z.of_nat (length r) = mx + 1
     ∧ (∀ i : nat, (i < length r)%nat →
          (∀ c, c ∈ row → resolved_index c ≠ Some (Z.of_nat i)) →
          r !! i = Some ""))
  ∧ ((∀ c, c ∈ row → resolvable c = false) →
     _iter_sheet_rows shared_strings (Some (pre ++ row :: post))
     = _iter_sheet_rows shared_strings (Some (pre ++ post)))
  ∧ _iter_sheet_rows shared_strings
      (Some [[Cell (Some "A1") None (Some (Some "x"));
              Cell (Some "C1") None (Some (Some "y"))]])
    = Ok [["x"; ""; "y"]].
Proof.
  split_and!; [| |done].
  - intros Hres Hok.
    destruct (sheet_row_emits shared_strings row Hres)
      as (r & mx & Hrow & Hmax & Hub & Hlen & Hgap).
    { intros c. apply Hok. apply elem_of_app. right. left. }
    destruct (sheet_rows_ok shared_strings pre) as [out_pre Hpre].
    { intros row' c Hrow'. apply Hok. apply elem_of_app. by left. }
    destruct (sheet_rows_ok shared_strings post) as [out_post Hpost].
    { intros row' c Hrow'. apply Hok. apply elem_of_app. right. by right. }
    exists out_pre, r, out_post, mx. cbn [_iter_sheet_rows].
    split_and!; try done.
    rewrite sheet_rows_app, Hpre, result_bind_ok. cbn [sheet_rows].
    by rewrite Hrow, result_bind_ok, Hpost, !result_bind_ok.
  - intros Hrow. cbn [_iter_sheet_rows]. rewrite !sheet_rows_app.
    cbn [sheet_rows]. rewrite (sheet_row_omitted _ _ Hrow), result_bind_ok.
    destruct (sheet_rows shared_strings pre) as [out_pre|e]; [|done].
    rewrite !result_bind_ok.
    by destruct (sheet_rows shared_strings post).
Qed.

Lemma sheet_row_dense_witness :
  ∃ r mx,
    _iter_sheet_rows ["Foo"; "Bar"]
      (Some ([[Cell (Some "A1") None (Some (Some "head"))]]
             ++ [Cell (Some "B2") (Some "s") (Some (Some "1"));
                 Cell (Some "$") None None;
                 Cell (Some "D2") None (Some (Some "7"))]
                :: [[Cell (Some "A3") None (Some (Some "tail"))]]))
    = Ok ([["head"]] ++ r :: [["tail"]])
    ∧ Z.of_nat (length r) = mx + 1
    ∧ r !! 0%nat = Some "".
Proof.
  destruct (proj1 (sheet_row_dense ["Foo"; "Bar"]
      [[Cell (Some "A1") None (Some (Some "head"))]]
      [[Cell (Some "A3") None (Some (Some "tail"))]]
      [Cell (Some "B2") (Some "s") (Some (Some "1"));
       Cell (Some "$") None None;
       Cell (Some "D2") None (Some (Some "7"))]))
    as (out_pre & r & out_post & mx & Hpre & Hpost & Hall & _ & _ & Hlen & Hgap).
  - eexists. split; [left|reflexivity].
  - intros row' c Hrow' Hc _. simpl in Hrow'.
    repeat (apply elem_of_cons in Hrow' as [->|Hrow'];
            [repeat (apply elem_of_cons in Hc as [->|Hc]; [reflexivity|]);
             by apply elem_of_nil in Hc|]).
    by apply elem_of_nil in Hrow'.
  - injection Hpre as <-. injection Hpost as <-.
    exists r, mx. split_and!; [done|done|].
    apply Hgap.
    + vm_compute in Hall. injection Hall as <-. simpl. lia.
    + intros c Hc.
      repeat (apply elem_of_cons in Hc as [->|Hc]; [by vm_compute|]).
      by apply elem_of_nil in Hc.
Defined.

(** C6 (the code departs from the specification). The value "-1" of a
    shared-string cell parses to the index -1, which lies outside the
    table's range 0..1, yet the last entry of the table is substituted and
    no error is raised; the index 2 does raise [IndexError]. *)
Theorem shared_string_negative_index :
  int "-1" = Ok (-1)
  ∧ ¬ (0 ≤ -1 < Z.of_nat (length ["Foo"; "Bar"]))
  ∧ getitem ["Foo"; "Bar"] (-1) = Ok "Bar"
  ∧ sheet_row ["Foo"; "Bar"] [Cell (Some "A1") (Some "s") (Some (Some "-1"))]
    = Ok (Some ["Bar"])
  ∧ sheet_row ["Foo"; "Bar"] [Cell (Some "A1") (Some "s") (Some (Some "2"))]
    = Err IndexError.
Proof. split_and!; [done|simpl; lia|done|done|done]. Qed.

(** C7 (as stated): the index does not depend on the alphabetic prefix
    alone. "A1" and "A1B" have the same alphabetic prefix "A", but the
    first resolves to column 0 and the second to column 27. *)
Lemma alpha_prefix_not_decisive :
  ¬ (∀ r r' : string,
       Spec.alpha_prefix r = Spec.alpha_prefix r' →
       resolved_index (Cell (Some r) None None)
       = resolved_index (Cell (Some r') None None)).
Proof. intros H. by specialize (H "A1" "A1B" eq_refl). Qed.

(** C7 (amended). The column index is resolved from all the alphabetic
    characters of the reference, taken in order: two cells whose
    references have the same alphabetic characters are handled alike, and
    a non-alphabetic character may be removed anywhere without effect.
    When no alphabetic character follows the first non-alphabetic one,
    these characters are the alphabetic prefix. *)
Theorem column_from_alphabetic_characters :
  (∀ shared_strings st c c',
     cell_t c = cell_t c' → cell_v c = cell_v c' →
     column_letters (default "" (cell_r c))
       = column_letters (default "" (cell_r c')) →
     cell_step shared_strings st c = cell_step shared_strings st c'
     ∧ resolved_index c = resolved_index c')
  ∧ (∀ r1 ch r2,
       isalpha ch = false →
       column_letters (r1 +:+ String ch r2) = column_letters (r1 +:+ r2))
  ∧ (∀ prefix rest,
       str_forall isalpha prefix = true →
       str_forall (λ ch, negb (isalpha ch)) rest = true →
       column_letters (prefix +:+ rest) = prefix
       ∧ Spec.alpha_prefix (prefix +:+ rest) = prefix).
Proof.
  split_and!.
  - intros shared_strings [cells m] c c' Ht Hv Hl.
    unfold resolved_index, resolvable, cell_step. by rewrite Ht, Hv, Hl.
  - intros r1 ch r2 Hch. rewrite !column_letters_app.
    unfold column_letters at 2. simpl. by rewrite Hch.
  - intros prefix rest Hp Hr. split; [|by apply alpha_prefix_app].
    rewrite column_letters_app, (column_letters_none rest Hr).
    unfold column_letters. rewrite (str_filter_id _ _ Hp).
    apply str_app_empty_r.
Qed.

Lemma column_from_alphabetic_characters_witness :
  cell_step [] (∅, -1) (Cell (Some "A1B") None (Some (Some "x")))
  = cell_step [] (∅, -1) (Cell (Some "$AB$7") None (Some (Some "x")))
  ∧ column_letters ("A" +:+ String "1" "B") = column_letters ("A" +:+ "B")
  ∧ column_letters ("AB" +:+ "12") = "AB".
Proof.
  destruct column_from_alphabetic_characters as (Hsame & Hdrop & Hprefix).
  split_and!.
  - apply (Hsame [] (∅, -1) (Cell (Some "A1B") None (Some (Some "x")))
             (Cell (Some "$AB$7") None (Some (Some "x")))); reflexivity.
  - apply Hdrop. reflexivity.
  - apply (Hprefix "AB" "12"); reflexivity.
Defined.

(** C8 (as stated): a reference without alphabetic characters raises
    nothing in the row extractor. The cell at "12" is passed over, the row
    yields nothing and the loop state is unchanged. *)
Lemma no_letter_reference_not_raised :
  ¬ (∀ shared_strings st c,
       str_forall (λ ch, negb (isalpha ch)) (default "" (cell_r c)) = true →
       ∃ e, cell_step shared_strings st c = Err e)
  ∧ sheet_row [] [Cell (Some "12") None (Some (Some "x"))] = Ok None.
Proof.
  split; [|done]. intros H.
  destruct (H [] (∅, -1) (Cell (Some "12") None (Some (Some "x"))) eq_refl)
    as [e He].
  discriminate He.
Qed.

(** C8 (amended). A cell whose reference has no alphabetic character is
    passed over by the row extractor: nothing is raised, no index is
    computed and the loop state is unchanged. [_column_name_to_index]
    itself raises [ValueError] on every non-empty string without
    alphabetic characters. *)
Theorem no_letter_reference_skipped :
  (∀ shared_strings st c,
     str_forall (λ ch, negb (isalpha ch)) (default "" (cell_r c)) = true →
     cell_step shared_strings st c = Ok st
     ∧ resolved_index c = None)
  ∧ (∀ column,
       column ≠ "" →
       str_forall (λ ch, negb (isalpha ch)) column = true →
       _column_name_to_index column = Err ValueError).
Proof.
  split.
  - intros shared_strings st c Hno.
    assert (resolvable c = false) as Hr.
    { unfold resolvable. by rewrite (column_letters_none _ Hno). }
    split; [by apply cell_step_skip|].
    unfold resolved_index. by rewrite Hr.
  - intros [|ch column] Hne Hno; [done|].
    simpl in Hno. apply andb_prop in Hno as [Hch _].
    unfold _column_name_to_index. simpl. by rewrite Hch.
Qed.

Lemma no_letter_reference_skipped_witness :
  cell_step ["Foo"] (∅, -1) (Cell (Some "12") (Some "s") (Some (Some "0")))
  = Ok (∅, -1)
  ∧ _column_name_to_index "12" = Err ValueError.
Proof.
  destruct no_letter_reference_skipped as [Hskip Hraise].
  split.
  - apply (Hskip ["Foo"] (∅, -1) (Cell (Some "12") (Some "s") (Some (Some "0")))).
    reflexivity.
  - apply Hraise; [discriminate|reflexivity].
Defined.

(** C10. A cell typed as a shared string whose value node is absent or
    has no text stores the empty string under its index; the table is not
    consulted (any table gives the same outcome as the empty one), and the
    step does not raise [IndexError]. *)
Theorem shared_string_cell_without_value
    (shared_strings : list string) (cells : gmap Z string) (m : Z) (c : cell) :
  cell_t c = Some "s" →
  cell_v c = None ∨ cell_v c = Some None ∨ cell_v c = Some (Some "") →
  cell_step shared_strings (cells, m) c
  = (if resolvable c
     then index ← _column_name_to_index (column_letters (default "" (cell_r c)));
          Ok (<[index := ""]> cells, Z.max m index)
     else Ok (cells, m))
  ∧ cell_step shared_strings (cells, m) c = cell_step [] (cells, m) c
  ∧ cell_step shared_strings (cells, m) c ≠ Err IndexError.
Proof.
  intros Ht Hv.
  assert (∀ shared,
    cell_step shared (cells, m) c
    = (if resolvable c
       then index ← _column_name_to_index (column_letters (default "" (cell_r c)));
            Ok (<[index := ""]> cells, Z.max m index)
       else Ok (cells, m))) as Hstep.
  { intros shared. unfold cell_step, resolvable.
    destruct (bool_decide (column_letters _ = "")); simpl; [done|].
    destruct (_column_name_to_index _) as [index|e]; simpl; [|done].
    destruct Hv as [->|[->| ->]]; simpl; by rewrite ?andb_false_r. }
  split_and!; [apply Hstep|by rewrite !Hstep|].
  rewrite Hstep. destruct (resolvable c); [|done].
  pose proof (column_loop_alpha (column_letters (default "" (cell_r c))) 0
                (str_filter_forall _ _)) as [_ Hidx].
  unfold _column_name_to_index.
  destruct (column_loop 0 _) as [index|e]; simpl; [done|congruence].
Qed.

Lemma shared_string_cell_without_value_witness :
  cell_step ["Foo"] (∅, -1) (Cell (Some "B3") (Some "s") (Some None))
  = Ok (<[1 := ""]> ∅, 1).
Proof.
  apply (proj1 (shared_string_cell_without_value ["Foo"] ∅ (-1)
                  (Cell (Some "B3") (Some "s") (Some None))
                  eq_refl (or_intror (or_introl eq_refl)))).
Defined.

(** ** The row cleaner *)

Section row_cleaner.

Lemma int_digits_decimal digits acc seen :
  str_forall isdecimal digits = true →
  digits ≠ "" ∨ seen = true →
  int_digits acc seen digits = Ok (Spec.decimal_value acc digits).
Proof.
  revert acc seen. induction digits as [|c digits IH]; intros acc seen; simpl.
  - intros _ [?| ->]; done.
  - intros [Hc Hs]%andb_prop _. rewrite Hc.
    change (ord "0") with 48. apply IH; [done|by right].
Qed.

Lemma int_digits_superscript digits acc seen :
  str_forall isdigit digits = true →
  str_forall isdecimal digits = false →
  int_digits acc seen digits = Err ValueError.
Proof.
  revert acc seen. induction digits as [|c digits IH]; intros acc seen; simpl; [done|].
  intros [Hc Hs]%andb_prop Hdec.
  destruct (isdecimal c) eqn:Hd; simpl in *.
  - by apply IH.
  - by rewrite (isdigit_not_decimal c Hc Hd).
Qed.

Lemma decimal_value_nonneg digits acc :
  str_forall isdecimal digits = true → 0 ≤ acc →
  0 ≤ Spec.decimal_value acc digits.
Proof.
  revert acc. induction digits as [|c digits IH]; intros acc; simpl; [done|].
  intros [Hc Hs]%andb_prop Hacc. apply IH; [done|].
  pose proof (isdecimal_bounds c Hc). change (ord "0") with 48. lia.
Qed.

Lemma str_count_decimal digits :
  str_forall isdecimal digits = true →
  str_count isdecimal digits = Z.of_nat (String.length digits).
Proof.
  induction digits as [|c digits IH]; [done|].
  cbn [str_forall str_count String.length].
  intros [Hc Hs]%andb_prop. rewrite Hc, (IH Hs). lia.
Qed.

(** [int] on a non-empty text of characters that pass [isdigit]. *)
Lemma int_of_digits cleaned :
  cleaned ≠ "" →
  str_forall isdigit cleaned = true →
  int cleaned
  = if str_forall isdecimal cleaned
       && (Z.of_nat (String.length cleaned) <=? max_str_digits)
    then Ok (Spec.decimal_value 0 cleaned)
    else Err ValueError.
Proof.
  intros Hne Hdig. unfold int.
  rewrite (strip_digits _ _ isdigit_not_int_space Hdig).
  destruct cleaned as [|c rest] eqn:Heq; [done|]. rewrite <- Heq in *.
  assert (isdigit c = true) as Hc.
  { rewrite Heq in Hdig. simpl in Hdig. by apply andb_prop in Hdig as [? _]. }
  destruct (isdigit_not_sign c Hc) as [-> ->]. unfold int_literal.
  destruct (str_forall isdecimal cleaned) eqn:Hdec.
  - rewrite (int_digits_decimal cleaned 0 false Hdec) by by left.
    rewrite (str_count_decimal _ Hdec), Z.ltb_antisym. simpl.
    by destruct (_ <=? _).
  - by rewrite (int_digits_superscript cleaned 0 false Hdig Hdec).
Qed.

Lemma clean_numeric_spec value :
  _clean_numeric value
  = if Spec.numeric_ok value then Ok (Spec.number value) else Err ValueError.
Proof.
  unfold _clean_numeric, Spec.numeric_ok, Spec.number.
  case_bool_decide as Hempty; simpl; [done|].
  destruct (str_isdigit (strip value)) eqn:Hdig; simpl.
  - assert (str_forall isdigit (strip value) = true) as Hall.
    { unfold str_isdigit in Hdig. by destruct (strip value). }
    by apply int_of_digits.
  - assert (str_forall isdecimal (strip value) = false) as ->; [|done].
    apply not_true_is_false. intros Hdec.
    assert (str_forall isdigit (strip value) = true) as Hall
      by (revert Hdec; apply str_forall_impl, isdecimal_isdigit).
    unfold str_isdigit in Hdig. destruct (strip value); congruence.
Qed.

(** After padding, the eight positions the loop reads exist. *)
Lemma getitem_pad_row row (i : nat) (z : Z) :
  (i < 8)%nat → z = Z.of_nat i →
  getitem (pad_row row) z = Ok (Spec.column row i).
Proof.
  intros Hi ->. apply getitem_in_range; [lia|].
  rewrite Nat2Z.id. unfold pad_row, Spec.column.
  change (length expected_header) with 8%nat.
  destruct (length row <? 8)%nat eqn:Hlen.
  - apply Nat.ltb_lt in Hlen.
    destruct (row !! i) as [x|] eqn:Hx; simpl.
    + by rewrite lookup_app_l_Some with (x := x).
    + apply lookup_ge_None in Hx.
      rewrite lookup_app_r by done. apply lookup_replicate_2. lia.
  - apply Nat.ltb_ge in Hlen.
    destruct (lookup_lt_is_Some_2 row i ltac:(lia)) as [x Hx]. by rewrite Hx.
Qed.

Lemma numeric_fields_spec row :
  numeric_fields (pad_row row)
  = if forallb (λ i, Spec.numeric_ok (Spec.column row i)) [2; 3; 4; 5; 6; 7]%nat
    then Ok (Spec.number (Spec.column row 2), Spec.number (Spec.column row 3),
             Spec.number (Spec.column row 4), Spec.number (Spec.column row 5),
             Spec.number (Spec.column row 6), Spec.number (Spec.column row 7))
    else Err ValueError.
Proof.
  unfold numeric_fields.
  rewrite (getitem_pad_row row 2 2), (getitem_pad_row row 3 3),
    (getitem_pad_row row 4 4), (getitem_pad_row row 5 5),
    (getitem_pad_row row 6 6), (getitem_pad_row row 7 7) by (lia || done).
  simpl. rewrite !clean_numeric_spec.
  destruct (Spec.numeric_ok (Spec.column row 2)); simpl; [|done].
  destruct (Spec.numeric_ok (Spec.column row 3)); simpl; [|done].
  destruct (Spec.numeric_ok (Spec.column row 4)); simpl; [|done].
  destruct (Spec.numeric_ok (Spec.column row 5)); simpl; [|done].
  destruct (Spec.numeric_ok (Spec.column row 6)); simpl; [|done].
  by destruct (Spec.numeric_ok (Spec.column row 7)).
Qed.

(** The loop never raises; it appends the records of the accepted rows
    in order. *)
Lemma clean_loop_spec data_rows cleaned_rows :
  clean_loop cleaned_rows data_rows
  = Ok (cleaned_rows ++ omap Spec.clean_row data_rows).
Proof.
  revert cleaned_rows.
  induction data_rows as [|row rest IH]; intros cleaned_rows.
  - simpl. by rewrite app_nil_r.
  - cbn [clean_loop omap list_omap]. rewrite numeric_fields_spec.
    unfold Spec.clean_row.
    destruct (forallb _ _); [|apply IH].
    rewrite (getitem_pad_row row 1 1) by (lia || done). simpl.
    rewrite IH. by rewrite <- app_assoc.
Qed.

Lemma str_forall_false p s :
  str_forall p s = false ↔ ∃ c, In c (list_ascii_of_string s) ∧ p c = false.
Proof.
  induction s as [|c s IH]; simpl.
  - split; [done|]. by intros (? & [] & _).
  - rewrite andb_false_iff, IH. split.
    + intros [Hc|(d & Hd & Hp)]; [exists c; auto|exists d; auto].
    + intros (d & [<-|Hd] & Hp); [by left|right; eauto].
Qed.

Lemma forallb_false {A} (f : A → bool) (l : list A) :
  forallb f l = false ↔ ∃ x, In x l ∧ f x = false.
Proof.
  induction l as [|a l IH]; simpl.
  - split; [done|]. by intros (? & [] & _).
  - rewrite andb_false_iff, IH. split.
    + intros [Ha|(x & Hx & Hf)]; [exists a; auto|exists x; auto].
    + intros (x & [<-|Hx] & Hf); [by left|right; eauto].
Qed.

End row_cleaner.

(** C1 (as stated): a row can be dropped although none of its six
    numeric columns, trimmed, is empty or holds a character outside 0-9.
    The row below has a price of 4301 digits; [int] refuses it with
    [ValueError] and the loop drops the row. *)
Lemma long_number_row_dropped :
  (∀ i, (2 ≤ i ≤ 7)%nat →
        strip (Spec.column
                 ["1"; "Rumah A"; Spec.repeated "1" 4301; "36"; "60"; "2"; "1"; "0"]
                 i) ≠ ""
        ∧ str_forall isdecimal
            (strip (Spec.column
                      ["1"; "Rumah A"; Spec.repeated "1" 4301; "36"; "60"; "2"; "1"; "0"]
                      i)) = true)
  ∧ clean_loop []
      [["1"; "Rumah A"; Spec.repeated "1" 4301; "36"; "60"; "2"; "1"; "0"]]
    = Ok [].
Proof.
  split; [|by vm_compute].
  intros i Hi.
  assert (i = 2 ∨ i = 3 ∨ i = 4 ∨ i = 5 ∨ i = 6 ∨ i = 7)%nat as Hcases by lia.
  repeat destruct Hcases as [->|Hcases]; try subst i;
    (split; [by vm_compute|by vm_compute]).
Qed.

(** C1 (amended). The loop over the data rows never aborts: it returns the
    records of the accepted rows, in order. A row is dropped exactly when
    one of the columns 2 to 7 (empty when the row is too short), once
    trimmed, is empty, holds a character outside 0-9, or has more than
    4300 characters, the limit on the digits of a number. An accepted row
    gives the record whose name is column 1 trimmed and whose six numbers
    are the decimal readings of the trimmed columns, none of them
    negative. A row whose price is "0" is kept, one whose price is
    "12a000" is dropped. *)
Theorem clean_rows_spec (data_rows : list (list string)) :
  clean_loop [] data_rows = Ok (omap Spec.clean_row data_rows)
  ∧ max_str_digits = 4300
  ∧ (∀ row,
       Spec.clean_row row = None
       ↔ ∃ i, (2 ≤ i ≤ 7)%nat
              ∧ (strip (Spec.column row i) = ""
                 ∨ (∃ ch, In ch (list_ascii_of_string (strip (Spec.column row i)))
                          ∧ isdecimal ch = false)
                 ∨ max_str_digits
                   < Z.of_nat (String.length (strip (Spec.column row i)))))
  ∧ (∀ row entry,
       Spec.clean_row row = Some entry →
       name entry = strip (Spec.column row 1)
       ∧ price entry = Spec.decimal_value 0 (strip (Spec.column row 2))
       ∧ building_area entry = Spec.decimal_value 0 (strip (Spec.column row 3))
       ∧ land_area entry = Spec.decimal_value 0 (strip (Spec.column row 4))
       ∧ bedrooms entry = Spec.decimal_value 0 (strip (Spec.column row 5))
       ∧ bathrooms entry = Spec.decimal_value 0 (strip (Spec.column row 6))
       ∧ garage entry = Spec.decimal_value 0 (strip (Spec.column row 7))
       ∧ 0 ≤ price entry ∧ 0 ≤ building_area entry ∧ 0 ≤ land_area entry
       ∧ 0 ≤ bedrooms entry ∧ 0 ≤ bathrooms entry ∧ 0 ≤ garage entry)
  ∧ clean_loop []
      [["1"; " Rumah A "; "0"; "36"; "60"; "2"; "1"; "0"];
       ["2"; "Rumah B"; "12a000"; "36"; "60"; "2"; "1"; "0"];
       ["3"; "Rumah C"; " 450 "; "45"; "72"; "3"; "2"; "1"]]
    = Ok [Listing "Rumah A" 0 36 60 2 1 0; Listing "Rumah C" 450 45 72 3 2 1].
Proof.
  split_and!.
  - apply (clean_loop_spec data_rows []).
  - done.
  - intros row. unfold Spec.clean_row.
    destruct (forallb _ _) eqn:Hall.
    + split; [done|]. intros (i & Hi & Hbad).
      rewrite forallb_forall in Hall.
      assert (Spec.numeric_ok (Spec.column row i) = true) as Hok.
      { apply Hall. assert (i ∈ seq 2 6) as Hin by (apply elem_of_seq; lia).
        by apply list_elem_of_In in Hin. }
      unfold Spec.numeric_ok in Hok.
      apply andb_prop in Hok as [[Hne Hdec]%andb_prop Hlen].
      apply Z.leb_le in Hlen.
      destruct Hbad as [Hempty|[Hch|Hlong]].
      * rewrite Hempty in Hne. done.
      * apply str_forall_false in Hch. congruence.
      * lia.
    + split; [|done]. intros _.
      apply forallb_false in Hall as (i & Hi & Hbad).
      exists i. split.
      { apply list_elem_of_In in Hi.
        change [2; 3; 4; 5; 6; 7]%nat with (seq 2 6) in Hi.
        apply elem_of_seq in Hi. lia. }
      unfold Spec.numeric_ok in Hbad.
      apply andb_false_iff in Hbad as [[Hne|Hdec]%andb_false_iff|Hlen].
      * left. apply negb_false_iff, bool_decide_eq_true in Hne. done.
      * right. left. by apply str_forall_false.
      * right. right. by apply Z.leb_gt in Hlen.
  - intros row entry. unfold Spec.clean_row.
    destruct (forallb _ _) eqn:Hall; [|done]. intros [= <-]. simpl.
    rewrite forallb_forall in Hall.
    assert (∀ i, (2 ≤ i ≤ 7)%nat →
                 0 ≤ Spec.decimal_value 0 (strip (Spec.column row i))) as Hpos.
    { intros i Hi.
      assert (Spec.numeric_ok (Spec.column row i) = true) as Hok.
      { apply Hall. assert (i ∈ seq 2 6) as Hin by (apply elem_of_seq; lia).
        by apply list_elem_of_In in Hin. }
      unfold Spec.numeric_ok in Hok.
      apply andb_prop in Hok as [[_ Hdec]%andb_prop _].
      by apply decimal_value_nonneg. }
    unfold Spec.number. split_and!; try done; apply Hpos; lia.
  - done.
Qed.

(** C2. When the first row differs from the eight expected names,
    [load_house_data] raises [ValueError] and returns no record, whatever
    follows; when it is equal to them, the outcome is computed from the
    remaining rows alone. *)
Theorem header_checked (header : list string) (data_rows : list (list string)) :
  (header ≠ expected_header →
   load_rows (header :: data_rows) = Err ValueError
   ∧ ∀ shared_strings sheet_data,
       _iter_sheet_rows shared_strings sheet_data = Ok (header :: data_rows) →
       load_house_data shared_strings sheet_data = Err ValueError)
  ∧ (header = expected_header →
     load_rows (header :: data_rows)
     = Ok (dedup_loop [] ∅ (omap Spec.clean_row data_rows))
     ∧ ∀ shared_strings sheet_data,
         _iter_sheet_rows shared_strings sheet_data = Ok (header :: data_rows) →
         load_house_data shared_strings sheet_data
         = Ok (dedup_loop [] ∅ (omap Spec.clean_row data_rows)))
  ∧ expected_header = ["NO"; "NAMA RUMAH"; "HARGA"; "LB"; "LT"; "KT"; "KM"; "GRS"]
  ∧ length expected_header = 8%nat.
Proof.
  split_and!; [| |done|done].
  - intros Hne.
    assert (load_rows (header :: data_rows) = Err ValueError) as Hload.
    { unfold load_rows. by rewrite bool_decide_eq_true_2. }
    split; [done|]. intros shared_strings sheet_data Hrows.
    unfold load_house_data. rewrite Hrows. exact Hload.
  - intros Heq.
    assert (load_rows (header :: data_rows)
            = Ok (dedup_loop [] ∅ (omap Spec.clean_row data_rows))) as Hload.
    { unfold load_rows. rewrite bool_decide_eq_false_2 by (by intros []).
      by rewrite clean_loop_spec. }
    split; [done|]. intros shared_strings sheet_data Hrows.
    unfold load_house_data. rewrite Hrows. exact Hload.
Qed.

Lemma header_checked_witness :
  load_rows
    [["NO"; "NAMA RUMAH"; "HARGA"; "LB"; "LT"; "KT"; "KM"; "GARASI"];
     ["1"; "Rumah A"; "0"; "36"; "60"; "2"; "1"; "0"]]
  = Err ValueError
  ∧ load_rows
      [["NO"; "NAMA RUMAH"; "HARGA"; "LB"; "LT"; "KT"; "KM"; "GRS"];
       ["1"; "Rumah A"; "0"; "36"; "60"; "2"; "1"; "0"]]
    = Ok (dedup_loop [] ∅
            (omap Spec.clean_row [["1"; "Rumah A"; "0"; "36"; "60"; "2"; "1"; "0"]])).
Proof.
  split.
  - apply (proj1 (header_checked _ _)). discriminate.
  - apply (proj1 (proj2 (header_checked _ _))). reflexivity.
Defined.

(** ** The deduplicator *)

Section deduplicator.

Lemma entry_key_inj a b : entry_key a = entry_key b → a = b.
Proof. destruct a, b. unfold entry_key. simpl. by intros [= -> -> -> -> -> -> ->]. Qed.

Lemma dedup_loop_acc (cleaned_rows unique_rows : list listing)
    (seen_keys : gset key) :
  dedup_loop unique_rows seen_keys cleaned_rows
  = unique_rows ++ dedup_loop [] seen_keys cleaned_rows.
Proof.
  revert unique_rows seen_keys.
  induction cleaned_rows as [|entry rest IH]; intros unique_rows seen_keys; simpl.
  - by rewrite app_nil_r.
  - case_bool_decide; [apply IH|].
    rewrite (IH (unique_rows ++ [entry])), (IH [entry]).
    by rewrite <- app_assoc.
Qed.

(** [seen_keys] holds the keys of the entries met so far, [earlier]. *)
Lemma dedup_loop_snoc (cleaned_rows : list listing) (seen_keys : gset key)
    (earlier : list listing) (x : listing) :
  (∀ y, entry_key y ∈ seen_keys ↔ y ∈ earlier) →
  dedup_loop [] seen_keys (cleaned_rows ++ [x])
  = dedup_loop [] seen_keys cleaned_rows
    ++ (if bool_decide (x ∈ earlier ++ cleaned_rows) then [] else [x]).
Proof.
  revert seen_keys earlier.
  induction cleaned_rows as [|entry rest IH]; intros seen_keys earlier Hseen.
  - simpl. rewrite app_nil_r.
    case_bool_decide as Hk.
    + by rewrite bool_decide_eq_true_2 by by apply Hseen.
    + by rewrite bool_decide_eq_false_2 by by rewrite <- Hseen.
  - cbn [dedup_loop app]. case_bool_decide as Hk.
    + rewrite (IH seen_keys earlier Hseen). f_equal.
      apply Hseen in Hk.
      rewrite (bool_decide_ext (x ∈ earlier ++ rest)
                 (x ∈ earlier ++ entry :: rest)); [done|].
      rewrite !elem_of_app, elem_of_cons.
      split; [tauto|intros [?|[->|?]]; tauto].
    + rewrite (dedup_loop_acc _ ([] ++ [entry])),
        (dedup_loop_acc rest ([] ++ [entry])).
      rewrite (IH _ (earlier ++ [entry])), <- !app_assoc; [done|].
      intros y. rewrite elem_of_union, elem_of_singleton, elem_of_app,
        list_elem_of_singleton, Hseen.
      split.
      * intros [H|H]; [right; by apply entry_key_inj|by left].
      * intros [H|H]; [by right|left; by rewrite H].
Qed.

Lemma dedup_snoc cleaned_rows x :
  dedup_loop [] ∅ (cleaned_rows ++ [x])
  = dedup_loop [] ∅ cleaned_rows
    ++ (if bool_decide (x ∈ cleaned_rows) then [] else [x]).
Proof. apply (dedup_loop_snoc cleaned_rows ∅ []). set_solver. Qed.

Lemma dedup_elem_of cleaned_rows x :
  x ∈ dedup_loop [] ∅ cleaned_rows ↔ x ∈ cleaned_rows.
Proof.
  induction cleaned_rows as [|y l IH] using rev_ind; [done|].
  rewrite dedup_snoc, !elem_of_app, IH, list_elem_of_singleton.
  case_bool_decide as Hy.
  - rewrite elem_of_nil. split; [tauto|]. intros [?| ->]; auto.
  - by rewrite list_elem_of_singleton.
Qed.

Lemma dedup_NoDup cleaned_rows : NoDup (dedup_loop [] ∅ cleaned_rows).
Proof.
  induction cleaned_rows as [|y l IH] using rev_ind; [constructor|].
  rewrite dedup_snoc. case_bool_decide as Hy; [by rewrite app_nil_r|].
  apply NoDup_app. split_and!; [done| |apply NoDup_singleton].
  intros x Hx ->%list_elem_of_singleton.
  by apply (proj1 (dedup_elem_of l y)) in Hx.
Qed.

Lemma dedup_sublist cleaned_rows :
  dedup_loop [] ∅ cleaned_rows `sublist_of` cleaned_rows.
Proof.
  induction cleaned_rows as [|y l IH] using rev_ind; [done|].
  rewrite dedup_snoc. case_bool_decide as Hy.
  - rewrite app_nil_r. by apply sublist_inserts_r.
  - by apply sublist_app.
Qed.

End deduplicator.

(** C3. The deduplicator keeps a record exactly when no earlier record of
    the sequence is equal to it on all seven fields: appending a record
    [x] to a sequence appends [x] to the output when [x] does not occur in
    the sequence and leaves the output alone otherwise. The output is a
    subsequence of the input (order kept), has no repetition and holds
    every record of the input. Records differing in a field are both kept;
    records alike in every field collapse to the first. *)
Theorem dedup_first_occurrences :
  dedup_loop [] ∅ [] = []
  ∧ (∀ cleaned_rows x,
       dedup_loop [] ∅ (cleaned_rows ++ [x])
       = dedup_loop [] ∅ cleaned_rows
         ++ (if bool_decide (x ∈ cleaned_rows) then [] else [x]))
  ∧ (∀ cleaned_rows,
       dedup_loop [] ∅ cleaned_rows `sublist_of` cleaned_rows
       ∧ NoDup (dedup_loop [] ∅ cleaned_rows)
       ∧ ∀ x, x ∈ dedup_loop [] ∅ cleaned_rows ↔ x ∈ cleaned_rows)
  ∧ (∀ a b,
       entry_key a = entry_key b
       ↔ name a = name b ∧ price a = price b
         ∧ building_area a = building_area b ∧ land_area a = land_area b
         ∧ bedrooms a = bedrooms b ∧ bathrooms a = bathrooms b
         ∧ garage a = garage b)
  ∧ (∀ a b, entry_key a = entry_key b ↔ a = b)
  ∧ (∀ a b, a ≠ b → dedup_loop [] ∅ [a; b] = [a; b])
  ∧ dedup_loop [] ∅
      [Listing "Rumah A" 500 36 60 2 1 0; Listing "Rumah B" 500 36 60 2 1 0;
       Listing "Rumah A" 500 36 60 2 1 0; Listing "Rumah A" 500 36 60 2 1 1]
    = [Listing "Rumah A" 500 36 60 2 1 0; Listing "Rumah B" 500 36 60 2 1 0;
       Listing "Rumah A" 500 36 60 2 1 1].
Proof.
  split_and!; [done|apply dedup_snoc| | | | |done].
  - intros l. split_and!;
      [apply dedup_sublist|apply dedup_NoDup|apply dedup_elem_of].
  - intros a b. unfold entry_key. split.
    + by intros [= -> -> -> -> -> -> ->].
    + by intros (-> & -> & -> & -> & -> & -> & ->).
  - intros a b. split; [apply entry_key_inj|by intros ->].
  - intros a b Hab.
    change [a; b] with ([a] ++ [b]) at 1. rewrite dedup_snoc.
    change [a] with ([] ++ [a]) at 1. rewrite dedup_snoc. simpl.
    rewrite bool_decide_eq_false_2; [done|].
    intros ->%list_elem_of_singleton. done.
Qed.

(** ** Trimming and printing *)

Section printing.

Lemma str_app_cons c (s t : string) : String c s +:+ t = String c (s +:+ t).
Proof. done. Qed.

Lemma str_app_assoc (a b c : string) : (a +:+ b) +:+ c = a +:+ (b +:+ c).
Proof.
  induction a as [|ch a IH]; [done|].
  change (String ch (a +:+ b) +:+ c = String ch (a +:+ (b +:+ c))).
  change (String ch ((a +:+ b) +:+ c) = String ch (a +:+ (b +:+ c))).
  by rewrite IH.
Qed.

Lemma rstrip_idemp p s : rstrip p (rstrip p s) = rstrip p s.
Proof.
  induction s as [|c s IH]; [done|]. simpl.
  destruct (rstrip p s) as [|d r] eqn:Hr.
  - destruct (p c) eqn:Hc; [done|]. simpl. by rewrite Hc.
  - simpl in *. by rewrite IH.
Qed.

Lemma lstrip_head p s :
  match lstrip p s with
  | EmptyString => True
  | String c _ => p c = false
  end.
Proof.
  induction s as [|c s IH]; simpl; [done|].
  destruct (p c) eqn:Hc; [done|]. simpl. done.
Qed.

Lemma rstrip_head p c s :
  p c = false → ∃ r, rstrip p (String c s) = String c r.
Proof.
  intros Hc. simpl. destruct (rstrip p s); [|by eexists].
  rewrite Hc. by eexists.
Qed.

Lemma strip_idemp s : strip (strip s) = strip s.
Proof.
  unfold strip. pose proof (lstrip_head isspace s) as Hhead.
  destruct (lstrip isspace s) as [|c t]; [done|].
  destruct (rstrip_head isspace c t Hhead) as [r Hr].
  rewrite Hr, (lstrip_id _ _ _ Hhead), <- Hr. apply rstrip_idemp.
Qed.

Lemma strip_no_space s :
  str_forall (λ c, negb (isspace c)) s = true → strip s = s.
Proof.
  intros Hs. unfold strip. destruct s as [|c s]; [done|].
  pose proof Hs as Hs'. simpl in Hs'.
  apply andb_prop in Hs' as [Hc%negb_true_iff _].
  rewrite (lstrip_id _ _ _ Hc). by apply rstrip_id.
Qed.

Lemma decimal_not_space c : isdecimal c = true → negb (isspace c) = true.
Proof.
  destruct c as [[] [] [] [] [] [] [] []]; vm_compute; done.
Qed.

Lemma clean_numeric_error value e : _clean_numeric value = Err e → e = ValueError.
Proof.
  rewrite clean_numeric_spec. destruct (Spec.numeric_ok value); [done|].
  by intros [= <-].
Qed.

Lemma clean_numeric_nonneg value n : _clean_numeric value = Ok n → 0 ≤ n.
Proof.
  rewrite clean_numeric_spec. unfold Spec.numeric_ok, Spec.number.
  destruct (negb _); simpl; [|done].
  destruct (str_forall isdecimal (strip value)) eqn:Hdec; simpl; [|done].
  destruct (_ <=? _); [|done].
  intros [= <-]. by apply decimal_value_nonneg.
Qed.

(** *** Printing a number and reading it back *)

Lemma str_forall_app p (s t : string) :
  str_forall p (s +:+ t) = str_forall p s && str_forall p t.
Proof.
  induction s as [|c s IH]; [done|].
  change (String c s +:+ t) with (String c (s +:+ t)). simpl.
  by rewrite IH, andb_assoc.
Qed.

Lemma decimal_value_app (s t : string) acc :
  Spec.decimal_value acc (s +:+ t)
  = Spec.decimal_value (Spec.decimal_value acc s) t.
Proof.
  revert acc. induction s as [|c s IH]; intros acc; [done|].
  change (String c s +:+ t) with (String c (s +:+ t)). simpl. apply IH.
Qed.

Lemma pretty_N_go_app (x : N) (s : string) :
  pretty_N_go x s = pretty_N_go x "" +:+ s.
Proof.
  revert s. induction (N.lt_wf_0 x) as [x _ IH]; intros s.
  destruct (decide (0 < x)%N) as [Hx|Hx].
  - assert (x `div` 10 < x)%N as Hlt by (apply N.div_lt; lia).
    rewrite !(pretty_N_go_step x) by done.
    rewrite (IH _ Hlt (String _ s)), (IH _ Hlt (String _ "")).
    by rewrite str_app_assoc.
  - assert (x = 0%N) as -> by lia. by rewrite !pretty_N_go_0.
Qed.

Lemma pretty_N_char_digit (d : N) :
  (d < 10)%N →
  isdecimal (pretty_N_char d) = true ∧ ord (pretty_N_char d) - 48 = Z.of_N d.
Proof.
  intros Hd.
  assert (d = 0 ∨ d = 1 ∨ d = 2 ∨ d = 3 ∨ d = 4 ∨ d = 5 ∨ d = 6 ∨ d = 7
          ∨ d = 8 ∨ d = 9)%N as Hcases by lia.
  repeat destruct Hcases as [->|Hcases]; try subst d; by vm_compute.
Qed.

Lemma pretty_N_go_digits (x : N) :
  str_forall isdecimal (pretty_N_go x "") = true
  ∧ Spec.decimal_value 0 (pretty_N_go x "") = Z.of_N x
  ∧ ((0 < x)%N → pretty_N_go x "" ≠ "").
Proof.
  induction (N.lt_wf_0 x) as [x _ IH].
  destruct (decide (0 < x)%N) as [Hx|Hx].
  - rewrite (pretty_N_go_step x) by done. rewrite pretty_N_go_app.
    assert (x `div` 10 < x)%N as Hlt by (apply N.div_lt; lia).
    destruct (IH _ Hlt) as (Hdec & Hval & _).
    destruct (pretty_N_char_digit (x `mod` 10)%N) as [Hch Hord];
      [by apply N.mod_lt|].
    split_and!.
    + rewrite str_forall_app, Hdec. simpl. by rewrite Hch.
    + rewrite decimal_value_app, Hval. simpl. change (ord "0") with 48.
      rewrite Hord. pose proof (N.div_mod x 10 ltac:(done)). lia.
    + intros _. destruct (pretty_N_go (x `div` 10) ""); done.
  - assert (x = 0%N) as -> by lia. rewrite pretty_N_go_0.
    split_and!; [done|done|lia].
Qed.

(** The text of a number that is not negative: digits only, not empty,
    and read back as the number. *)
Lemma str_of_int_digits (n : Z) :
  0 ≤ n →
  str_of_int n ≠ ""
  ∧ str_forall isdecimal (str_of_int n) = true
  ∧ Spec.decimal_value 0 (str_of_int n) = n.
Proof.
  intros Hn. destruct n as [|q|q]; [done| |lia].
  unfold str_of_int, pretty, pretty_Z, pretty, pretty_positive, pretty, pretty_N.
  rewrite decide_False by done.
  destruct (pretty_N_go_digits (N.pos q)) as (Hdec & Hval & Hne).
  split_and!; [apply Hne; lia|done|by rewrite Hval].
Qed.

(** *** The length of a printed number *)

Lemma str_length_app (s t : string) :
  String.length (s +:+ t) = (String.length s + String.length t)%nat.
Proof.
  induction s as [|c s IH]; [done|].
  rewrite str_app_cons. simpl. by rewrite IH.
Qed.

Lemma str_of_int_pos (n : Z) :
  0 < n → str_of_int n = pretty_N_go (Z.to_N n) "".
Proof.
  intros Hn. destruct n as [|q|q]; [lia| |lia].
  unfold str_of_int, pretty, pretty_Z, pretty, pretty_positive, pretty, pretty_N.
  by rewrite decide_False.
Qed.

Lemma str_of_int_digit (d : Z) :
  0 ≤ d ≤ 9 → String.length (str_of_int d) = 1%nat.
Proof.
  intros Hd.
  assert (d = 0 ∨ d = 1 ∨ d = 2 ∨ d = 3 ∨ d = 4 ∨ d = 5 ∨ d = 6 ∨ d = 7
          ∨ d = 8 ∨ d = 9) as Hcases by lia.
  repeat destruct Hcases as [->|Hcases]; try subst d; by vm_compute.
Qed.

(** One more digit makes the text one character longer at most. *)
Lemma str_of_int_shift (m d : Z) :
  0 ≤ m → 0 ≤ d ≤ 9 →
  (String.length (str_of_int (m * 10 + d)) ≤ String.length (str_of_int m) + 1)%nat.
Proof.
  intros Hm Hd. destruct (decide (m = 0)) as [->|Hpos].
  - rewrite Z.mul_0_l, Z.add_0_l, (str_of_int_digit d Hd). lia.
  - rewrite (str_of_int_pos (m * 10 + d)), (str_of_int_pos m) by lia.
    rewrite (pretty_N_go_step (Z.to_N (m * 10 + d))) by lia.
    replace (Z.to_N (m * 10 + d) `div` 10)%N with (Z.to_N m).
    + rewrite pretty_N_go_app, str_length_app. simpl. lia.
    + replace (Z.to_N (m * 10 + d)) with (Z.to_N d + Z.to_N m * 10)%N by lia.
      rewrite N.div_add by done. rewrite N.div_small by lia. lia.
Qed.

Lemma decimal_value_length digits acc :
  str_forall isdecimal digits = true → 0 ≤ acc →
  (String.length (str_of_int (Spec.decimal_value acc digits))
   ≤ String.length (str_of_int acc) + String.length digits)%nat.
Proof.
  revert acc. induction digits as [|c digits IH]; intros acc; simpl; [lia|].
  intros [Hc Hs]%andb_prop Hacc.
  pose proof (isdecimal_bounds c Hc) as Hd. change (ord "0") with 48.
  pose proof (IH (acc * 10 + (ord c - 48)) Hs ltac:(lia)).
  pose proof (str_of_int_shift acc (ord c - 48) Hacc Hd). lia.
Qed.

(** The number read from a text of digits is printed with no more
    characters than the text has. *)
Lemma number_printable text :
  Spec.numeric_ok text = true → Spec.printable (Spec.number text).
Proof.
  unfold Spec.numeric_ok, Spec.number, Spec.printable.
  intros [[Hne Hdec]%andb_prop Hlen%Z.leb_le]%andb_prop.
  rewrite Z.abs_eq by (by apply decimal_value_nonneg).
  destruct (strip text) as [|c digits]; [done|].
  simpl in Hdec. apply andb_prop in Hdec as [Hc Hs].
  pose proof (isdecimal_bounds c Hc) as Hd.
  cbn [Spec.decimal_value]. change (ord "0") with 48. rewrite Z.mul_0_l, Z.add_0_l.
  pose proof (decimal_value_length digits (ord c - 48) Hs ltac:(lia)) as Hle.
  rewrite (str_of_int_digit _ Hd) in Hle. simpl in Hlen. lia.
Qed.

Lemma numeric_ok_str_of_int (n : Z) :
  0 ≤ n → Spec.printable n →
  Spec.numeric_ok (str_of_int n) = true ∧ Spec.number (str_of_int n) = n.
Proof.
  intros Hn Hp. destruct (str_of_int_digits n Hn) as (Hne & Hdec & Hval).
  assert (strip (str_of_int n) = str_of_int n) as Hstrip.
  { apply strip_no_space. revert Hdec.
    apply str_forall_impl, decimal_not_space. }
  unfold Spec.printable in Hp. rewrite Z.abs_eq in Hp by done.
  unfold Spec.numeric_ok, Spec.number. rewrite Hstrip, Hdec, Hval.
  rewrite bool_decide_eq_false_2 by done. simpl.
  split; [by apply Z.leb_le|done].
Qed.

Lemma numeric_ok_negative (q : positive) :
  Spec.numeric_ok (str_of_int (Z.neg q)) = false.
Proof.
  unfold str_of_int, pretty, pretty_Z, pretty, pretty_positive, pretty, pretty_N.
  rewrite decide_False by done.
  destruct (pretty_N_go_digits (N.pos q)) as (Hdec & _ & _).
  assert (strip ("-" +:+ pretty_N_go (N.pos q) "")
          = "-" +:+ pretty_N_go (N.pos q) "") as Hstrip.
  { apply strip_no_space.
    change ("-" +:+ pretty_N_go (N.pos q) "")
      with (String "-" (pretty_N_go (N.pos q) "")).
    simpl. revert Hdec. apply str_forall_impl, decimal_not_space. }
  unfold Spec.numeric_ok. rewrite Hstrip.
  change ("-" +:+ pretty_N_go (N.pos q) "")
    with (String "-" (pretty_N_go (N.pos q) "")).
  cbn [str_forall]. change (isdecimal "-") with false.
  by destruct (negb _), (_ <=? _).
Qed.

(** *** [str] and the rendering of a row *)

Lemma str_printable (n : Z) : Spec.printable n → str n = Ok (str_of_int n).
Proof.
  unfold Spec.printable, str. intros Hp.
  by replace (_ <? _) with false by (symmetry; apply Z.ltb_ge; lia).
Qed.

Lemma str_unprintable (n : Z) : ¬ Spec.printable n → str n = Err ValueError.
Proof.
  unfold Spec.printable, str. intros Hp.
  by replace (_ <? _) with true by (symmetry; apply Z.ltb_lt; lia).
Qed.



(** *** The records that the loader returns can be printed *)

Lemma clean_row_printable row entry :
  Spec.clean_row row = Some entry → Spec.all_printable entry.
Proof.
  unfold Spec.clean_row.
  destruct (forallb _ _) eqn:Hall; [|done]. intros [= <-].
  rewrite forallb_forall in Hall.
  assert (∀ i, (2 ≤ i ≤ 7)%nat →
               Spec.printable (Spec.number (Spec.column row i))) as Hp.
  { intros i Hi. apply number_printable, Hall.
    assert (i ∈ seq 2 6) as Hin by (apply elem_of_seq; lia).
    by apply list_elem_of_In in Hin. }
  unfold Spec.all_printable.
  cbn [price building_area land_area bedrooms bathrooms garage].
  split_and!; apply Hp; lia.
Qed.

Lemma omap_printable rows :
  Forall Spec.all_printable (omap Spec.clean_row rows).
Proof.
  induction rows as [|row rows IH]; simpl; [constructor|].
  destruct (Spec.clean_row row) as [entry|] eqn:Hrow; [|done].
  constructor; [by eapply clean_row_printable|done].
Qed.

Lemma load_rows_printable rows out :
  load_rows rows = Ok out → Forall Spec.all_printable out.
Proof.
  unfold load_rows. destruct rows as [|header data_rows]; [done|].
  case_bool_decide; [done|]. rewrite clean_loop_spec. simpl.
  intros [= <-]. apply Forall_forall. intros entry Hentry.
  apply (proj1 (dedup_elem_of _ _)) in Hentry.
  pose proof (omap_printable data_rows) as Hall.
  rewrite Forall_forall in Hall. by apply Hall.
Qed.


(** *** Line breaks in what is written *)










End printing.

(** ** The writer *)

Section writer.





End writer.




(** * Further properties of the program *)

(** ** The shared-string loader *)

Section shared_strings.

Lemma join_some (fragments : list string) :
  join (Some <$> fragments) = Ok (Spec.lines fragments).
Proof.
  induction fragments as [|fragment rest IH]; [done|].
  rewrite fmap_cons. cbn [join]. by rewrite IH.
Qed.

Lemma iter_head (e : element) : ∃ rest, iter e = e :: rest.
Proof. destruct e. simpl. by eexists. Qed.

(** A child is among the elements beneath its parent. *)
Lemma child_beneath (e child : element) :
  child ∈ elem_children e → child ∈ concat (map iter (elem_children e)).
Proof.
  intros Hchild. apply list_elem_of_In, in_concat. exists (iter child). split.
  - apply in_map, list_elem_of_In, Hchild.
  - destruct (iter_head child) as [rest ->]. by left.
Qed.

Lemma findall_deep_nil_find tag (e : element) :
  findall_deep tag e = [] → find tag e = None.
Proof.
  unfold findall_deep, find, findall. intros Hdeep.
  destruct (filter _ (elem_children e)) as [|child rest] eqn:Hchildren; [done|].
  assert (child ∈ filter (λ c, elem_tag c = tag) (elem_children e)) as Hin
    by (rewrite Hchildren; left).
  apply list_elem_of_filter in Hin as [Htag Hin].
  assert (child ∈ filter (λ node, elem_tag node = tag)
                    (concat (map iter (elem_children e)))) as Hbad.
  { apply list_elem_of_filter. split; [done|]. by apply child_beneath. }
  rewrite Hdeep in Hbad. by apply elem_of_nil in Hbad.
Qed.

Lemma shared_string_of_spec (shared_string : element) :
  shared_string_of shared_string
  = Ok (Spec.lines (Spec.fragment_text <$> findall_deep (ns "t") shared_string)).
Proof.
  unfold shared_string_of.
  destruct (findall_deep (ns "t") shared_string) as [|node rest] eqn:Hdeep.
  - simpl. by rewrite (findall_deep_nil_find _ _ Hdeep).
  - replace ((λ node0, Some (default "" (elem_text node0))) <$> node :: rest)
      with (Some <$> (Spec.fragment_text <$> node :: rest))
      by (by rewrite <- list_fmap_compose).
    rewrite !fmap_cons. cbn [join]. by rewrite join_some.
Qed.


End shared_strings.


(** X2. The string of an [si] element is the concatenation, in document
    order, of the texts of all the [t] elements beneath it, on every
    level, a missing or empty text counting as empty. When there is no
    such element the string is empty, and the look-up of a direct [t]
    child made in that case finds nothing. *)
Theorem shared_string_fragments (shared_string : element) :
  shared_string_of shared_string
  = Ok (Spec.lines (Spec.fragment_text <$> findall_deep (ns "t") shared_string))
  ∧ (findall_deep (ns "t") shared_string = [] →
     find (ns "t") shared_string = None
     ∧ shared_string_of shared_string = Ok "").
Proof.
  split; [apply shared_string_of_spec|]. intros Hnone.
  split; [by apply findall_deep_nil_find|].
  by rewrite shared_string_of_spec, Hnone.
Qed.

Lemma shared_string_fragments_witness :
  find (ns "t") (Element (ns "si") ∅ None [Element (ns "r") ∅ None []]) = None
  ∧ shared_string_of (Element (ns "si") ∅ None [Element (ns "r") ∅ None []])
    = Ok "".
Proof.
  apply (proj2 (shared_string_fragments
                  (Element (ns "si") ∅ None [Element (ns "r") ∅ None []]))).
  reflexivity.
Defined.

(** ** More on the column resolver *)

Section resolver_more.

Lemma base26_horner column acc :
  Spec.base26 acc column = Spec.horner acc (Spec.digits column).
Proof.
  revert acc. induction column as [|c column IH]; intros acc; [done|].
  simpl. by rewrite IH.
Qed.

Lemma digits_bounds column :
  str_forall Spec.is_letter column = true →
  Forall (λ d, 1 ≤ d ≤ 26) (Spec.digits column).
Proof.
  induction column as [|c column IH]; simpl; [constructor|].
  intros [Hc Hs]%andb_prop. constructor; [by apply letter_value_bounds|by apply IH].
Qed.

Lemma horner_nonneg ds acc :
  Forall (λ d, 1 ≤ d ≤ 26) ds → 0 ≤ acc → 0 ≤ Spec.horner acc ds.
Proof.
  revert acc. induction ds as [|d ds IH]; intros acc Hds Hacc; simpl; [done|].
  apply Forall_cons in Hds as [Hd Hds]. apply IH; [done|lia].
Qed.

Lemma horner_snoc ds d acc : Spec.horner acc (ds ++ [d]) = Spec.horner acc ds * 26 + d.
Proof. unfold Spec.horner. by rewrite foldl_app. Qed.

(** Bijective base 26: a number has one digit string at most. *)
Lemma horner_inj ds1 ds2 :
  Forall (λ d, 1 ≤ d ≤ 26) ds1 → Forall (λ d, 1 ≤ d ≤ 26) ds2 →
  Spec.horner 0 ds1 = Spec.horner 0 ds2 → ds1 = ds2.
Proof.
  revert ds2. induction ds1 as [|d1 ds1 IH] using rev_ind; intros ds2 H1 H2.
  - destruct ds2 as [|d2 ds2] using rev_ind; [done|].
    rewrite horner_snoc. apply Forall_app in H2 as [H2 Hd2].
    apply Forall_inv in Hd2.
    pose proof (horner_nonneg ds2 0 H2 ltac:(lia)).
    change (Spec.horner 0 []) with 0. intros Heq. exfalso. lia.
  - apply Forall_app in H1 as [H1 Hd1]. apply Forall_inv in Hd1.
    pose proof (horner_nonneg ds1 0 H1 ltac:(lia)).
    destruct ds2 as [|d2 ds2 _] using rev_ind.
    + rewrite horner_snoc. change (Spec.horner 0 []) with 0.
      intros Heq. exfalso. lia.
    + apply Forall_app in H2 as [H2 Hd2]. apply Forall_inv in Hd2.
      pose proof (horner_nonneg ds2 0 H2 ltac:(lia)).
      rewrite !horner_snoc. intros Heq.
      assert (Spec.horner 0 ds1 = Spec.horner 0 ds2 ∧ d1 = d2) as [Hv ->] by lia.
      by rewrite (IH ds2 H1 H2 Hv).
Qed.

Lemma column_loop_ok_alpha column value index :
  column_loop value column = Ok index → str_forall isalpha column = true.
Proof.
  revert value. induction column as [|c column IH]; intros value; simpl; [done|].
  destruct (isalpha c); simpl; [|done].
  destruct (ord_str (upper c)); simpl; [|done]. apply IH.
Qed.

Lemma column_loop_errors column value e :
  column_loop value column = Err e → e = ValueError ∨ e = TypeError.
Proof.
  revert value. induction column as [|c column IH]; intros value; simpl; [done|].
  destruct (isalpha c); simpl; [|intros [= <-]; by left].
  destruct (upper c) as [|u [|u' us]]; simpl;
    [intros [= <-]; by right|apply IH|intros [= <-]; by right].
Qed.

End resolver_more.

(** X3. [_column_name_to_index] raises [ValueError] or [TypeError] and
    nothing else. When it returns an index, every character of its
    argument is alphabetic and the index is at least -1; it is -1 exactly
    for the empty string. *)
Theorem column_index_range (column : string) :
  (∀ e, _column_name_to_index column = Err e → e = ValueError ∨ e = TypeError)
  ∧ (∀ index,
       _column_name_to_index column = Ok index →
       str_forall isalpha column = true
       ∧ -1 ≤ index
       ∧ (index = -1 ↔ column = "")).
Proof.
  split; [apply column_loop_errors|].
  intros index Hidx. split_and!.
  - by eapply column_loop_ok_alpha.
  - apply column_loop_ge in Hidx; lia.
  - split.
    + intros ->. destruct column as [|c column]; [done|].
      pose proof (column_index_nonneg (String c column) (-1) ltac:(done) Hidx).
      lia.
    + intros ->. injection Hidx as <-. done.
Qed.

Lemma column_index_range_witness :
  str_forall isalpha "XFD" = true ∧ -1 ≤ 16383
  ∧ (ValueError = ValueError ∨ ValueError = TypeError).
Proof.
  destruct (column_index_range "XFD") as [_ Hok].
  destruct (Hok 16383 eq_refl) as (Halpha & Hge & _).
  destruct (column_index_range "X1") as [Herr _].
  split_and!; [done|done|]. by apply Herr.
Defined.

(** X4. On strings of letters the resolver tells columns apart: two such
    strings with the same index have the same letters, up to case. *)
Theorem column_index_injective (column other : string) :
  str_forall Spec.is_letter column = true →
  str_forall Spec.is_letter other = true →
  _column_name_to_index column = _column_name_to_index other →
  Spec.letter_value <$> list_ascii_of_string column
  = Spec.letter_value <$> list_ascii_of_string other.
Proof.
  intros Hc Ho. unfold _column_name_to_index.
  rewrite (column_loop_letters _ _ Hc), (column_loop_letters _ _ Ho).
  rewrite !base26_horner. intros [= Heq].
  change (Spec.digits column = Spec.digits other).
  apply horner_inj; [by apply digits_bounds..|lia].
Qed.

Lemma column_index_injective_witness :
  Spec.letter_value <$> list_ascii_of_string "ab"
  = Spec.letter_value <$> list_ascii_of_string "AB".
Proof.
  apply (column_index_injective "ab" "AB"); reflexivity.
Defined.

(** ** More on the row extractor *)

Section extractor_more.

Implicit Types (shared : list string) (c : cell) (cells : gmap Z string).

Lemma cell_loop_app shared (pre post : row_elem) st :
  cell_loop shared st (pre ++ post)
  = (st' ← cell_loop shared st pre; cell_loop shared st' post).
Proof.
  revert st. induction pre as [|c pre IH]; intros st; [done|].
  cbn [app cell_loop]. destruct (cell_step shared st c) as [st'|e]; simpl; [|done].
  apply IH.
Qed.

Lemma int_digits_error s acc seen e :
  int_digits acc seen s = Err e → e = ValueError.
Proof.
  revert acc seen. induction s as [|ch s IH]; intros acc seen; simpl.
  - destruct seen; [done|]. by intros [= <-].
  - destruct (isdecimal ch); [apply IH|].
    destruct ((ord ch =? 95) && seen); [apply IH|]. by intros [= <-].
Qed.

Lemma int_literal_error s e : int_literal s = Err e → e = ValueError.
Proof.
  unfold int_literal.
  destruct (int_digits 0 false s) as [n|e'] eqn:Hd; simpl.
  - destruct (_ <? _); [|done]. by intros [= <-].
  - intros [= <-]. by eapply int_digits_error.
Qed.

Lemma int_error s e : int s = Err e → e = ValueError.
Proof.
  unfold int. destruct (rstrip _ _) as [|ch s']; [by intros [= <-]|].
  destruct (ord ch =? 45).
  - destruct (int_literal s') as [n|e'] eqn:Hd; simpl; [done|].
    intros [= <-]. by eapply int_literal_error.
  - destruct (ord ch =? 43); apply int_literal_error.
Qed.

Lemma getitem_error {A} (l : list A) i e :
  getitem l i = Err e →
  e = IndexError ∧ (Z.of_nat (length l) ≤ i ∨ i < - Z.of_nat (length l)).
Proof.
  unfold getitem.
  destruct (i <? 0) eqn:Hneg;
    [apply Z.ltb_lt in Hneg|apply Z.ltb_ge in Hneg].
  - destruct (i + Z.of_nat (length l) <? 0) eqn:Hlo; simpl.
    + apply Z.ltb_lt in Hlo. intros [= <-]. split; [done|lia].
    + apply Z.ltb_ge in Hlo.
      destruct (Z.of_nat (length l) <=? i + Z.of_nat (length l)) eqn:Hhi.
      * apply Z.leb_le in Hhi. lia.
      * apply Z.leb_gt in Hhi.
        destruct (lookup_lt_is_Some_2 l (Z.to_nat (i + Z.of_nat (length l)))
                    ltac:(lia)) as [x ->]. done.
  - replace (i <? 0) with false by (symmetry; apply Z.ltb_ge; lia). simpl.
    destruct (Z.of_nat (length l) <=? i) eqn:Hhi.
    + apply Z.leb_le in Hhi. intros [= <-]. split; [done|lia].
    + apply Z.leb_gt in Hhi.
      destruct (lookup_lt_is_Some_2 l (Z.to_nat i) ltac:(lia)) as [x ->]. done.
Qed.

Lemma column_letters_error reference e :
  _column_name_to_index (column_letters reference) = Err e → e = TypeError.
Proof.
  pose proof (column_loop_alpha (column_letters reference) 0
                (str_filter_forall _ _)) as [Hv Hi].
  unfold _column_name_to_index. intros He.
  destruct (column_loop_errors _ _ _ He) as [->| ->]; [|done].
  by rewrite He in Hv.
Qed.

Lemma sheet_row_nonempty shared (row : row_elem) r :
  sheet_row shared row = Ok (Some r) → r ≠ [].
Proof.
  unfold sheet_row.
  destruct (cell_loop shared (∅, -1) row) as [[cells mx]|e]; simpl; [|done].
  destruct (0 <=? mx) eqn:Hmx; [|done]. apply Z.leb_le in Hmx.
  intros [= <-] Hnil. apply (f_equal length) in Hnil.
  rewrite length_fmap, length_seqZ in Hnil. simpl in Hnil. lia.
Qed.

Lemma sheet_rows_spec shared (rows : list row_elem) out :
  sheet_rows shared rows = Ok out →
  Forall (λ r, r ≠ []) out ∧ (length out ≤ length rows)%nat.
Proof.
  revert out. induction rows as [|row rows IH]; intros out.
  - intros [= <-]. split; [constructor|done].
  - cbn [sheet_rows].
    destruct (sheet_row shared row) as [y|e] eqn:Hrow; simpl; [|done].
    destruct (sheet_rows shared rows) as [ys|e]; simpl; [|done].
    destruct (IH ys eq_refl) as [Hne Hlen].
    intros [= <-]. destruct y as [r|]; simpl.
    + split; [|lia]. constructor; [|done]. by eapply sheet_row_nonempty.
    + split; [done|lia].
Qed.

End extractor_more.

(** X5. The row extractor never yields an empty row, and it yields at most
    one row per row element of the sheet; without a sheet-data element it
    yields nothing. *)
Theorem iter_sheet_rows_nonempty (shared_strings : list string)
    (sheet_data : option (list row_elem)) (out : list (list string)) :
  _iter_sheet_rows shared_strings sheet_data = Ok out →
  Forall (λ r, r ≠ []) out
  ∧ (length out ≤ length (default [] sheet_data))%nat.
Proof.
  destruct sheet_data as [rows|]; simpl.
  - apply sheet_rows_spec.
  - intros [= <-]. split; [constructor|done].
Qed.

Lemma iter_sheet_rows_nonempty_witness :
  Forall (λ r : list string, r ≠ []) [["x"]]
  ∧ (length [["x"]] ≤ 2)%nat.
Proof.
  apply (iter_sheet_rows_nonempty []
           (Some [[Cell (Some "A1") None (Some (Some "x"))];
                  [Cell (Some "1") None (Some (Some "y"))]])
           [["x"]]).
  reflexivity.
Defined.

(** X6. When several cells of a row resolve to the same column, the last
    of them decides the text at that position: in a row none of whose
    cells raises, the text that a cell stores under its index is the text
    of the yielded row there, provided no later cell has that index. *)
Theorem last_cell_wins (shared_strings : list string) (pre post : row_elem)
    (c : cell) (index : Z) (text : string) :
  (∀ c', c' ∈ pre ++ c :: post → resolvable c' = true →
         is_ok (cell_step shared_strings (∅, -1) c') = true) →
  cell_step shared_strings (∅, -1) c = Ok (<[index := text]> ∅, index) →
  (∀ c', c' ∈ post → resolved_index c' ≠ Some index) →
  ∃ r, sheet_row shared_strings (pre ++ c :: post) = Ok (Some r)
       ∧ r !! Z.to_nat index = Some text.
Proof.
  intros Hok Hc Hpost.
  assert (resolvable c = true) as Hr.
  { destruct (resolvable c) eqn:Hr; [done|].
    rewrite (cell_step_skip _ _ _ Hr) in Hc.
    apply (f_equal (λ r, match r with Ok p => p.1 | Err _ => ∅ end)) in Hc.
    cbn [fst] in Hc. symmetry in Hc. by apply insert_non_empty in Hc. }
  destruct (cell_step_ok shared_strings c (∅, -1) Hr)
    as (index' & text' & Hidx & Hstep).
  { by rewrite Hc. }
  assert (index' = index ∧ text' = text) as [-> ->].
  { rewrite Hstep in Hc.
    apply (f_equal (λ r, match r with Ok p => p.1 | Err _ => ∅ end)) in Hc.
    cbn [fst] in Hc. rename Hc into Hmap.
    assert ((<[index' := text']> (∅ : gmap Z string)) !! index = Some text) as Hl
      by (by rewrite Hmap, lookup_insert_eq).
    apply lookup_insert_Some in Hl as [[? ?]|[_ Hl]]; [done|].
    by rewrite lookup_empty in Hl. }
  apply resolved_index_resolvable in Hidx as [_ Hindex].
  destruct (cell_loop_spec shared_strings pre ∅ (-1))
    as (cells1 & m1 & Hpre & _ & _ & _ & _).
  { intros c' Hc'. apply Hok. apply elem_of_app. by left. }
  destruct (cell_loop_spec shared_strings post (<[index := text]> cells1)
              (Z.max m1 index))
    as (cells2 & m2 & Hloop & _ & Hle & _ & Hframe).
  { intros c' Hc'. apply Hok. apply elem_of_app. right. by right. }
  exists ((λ i, default "" (cells2 !! i)) <$> seqZ 0 (m2 + 1)).
  unfold sheet_row. rewrite cell_loop_app, Hpre, result_bind_ok.
  cbn [cell_loop]. rewrite Hstep, result_bind_ok, Hloop. simpl.
  replace (0 <=? m2) with true by (symmetry; apply Z.leb_le; lia).
  split; [done|].
  rewrite list_lookup_fmap, lookup_seqZ_lt by lia. simpl.
  rewrite Z.add_0_l, Z2Nat.id by done.
  by rewrite (Hframe index Hpost), lookup_insert_eq.
Qed.

Lemma last_cell_wins_witness :
  ∃ r, sheet_row []
         ([Cell (Some "B1") None (Some (Some "old"))]
          ++ Cell (Some "b1") None (Some (Some "new"))
             :: [Cell (Some "A1") None (Some (Some "x"))])
       = Ok (Some r)
       ∧ r !! Z.to_nat 1 = Some "new".
Proof.
  apply (last_cell_wins [] [Cell (Some "B1") None (Some (Some "old"))]
           [Cell (Some "A1") None (Some (Some "x"))]
           (Cell (Some "b1") None (Some (Some "new"))) 1 "new").
  - intros c' Hc' _. simpl in Hc'.
    repeat (apply elem_of_cons in Hc' as [->|Hc']; [reflexivity|]).
    by apply elem_of_nil in Hc'.
  - reflexivity.
  - intros c' Hc'. apply elem_of_cons in Hc' as [->|Hc']; [by vm_compute|].
    by apply elem_of_nil in Hc'.
Defined.

(** X7. What a cell can raise. [TypeError] comes from the resolver
    alone; [ValueError] arises only for a shared-string cell whose value
    text [int] refuses, for not being an integer literal or for having
    more digits than the limit, so never from the resolver; [IndexError]
    arises only for a shared-string cell whose value is an integer at or
    beyond the length of the table, or below its negation. Nothing else is
    raised. *)
Theorem cell_step_errors (shared_strings : list string)
    (st : gmap Z string * Z) (c : cell) (e : exn) :
  cell_step shared_strings st c = Err e →
  match e with
  | TypeError =>
      _column_name_to_index (column_letters (default "" (cell_r c)))
      = Err TypeError
  | ValueError =>
      cell_t c = Some "s"
      ∧ ∃ text, cell_v c = Some (Some text) ∧ text ≠ ""
                ∧ int text = Err ValueError
  | IndexError =>
      cell_t c = Some "s"
      ∧ ∃ text i, cell_v c = Some (Some text) ∧ int text = Ok i
                  ∧ (Z.of_nat (length shared_strings) ≤ i
                     ∨ i < - Z.of_nat (length shared_strings))
  | KeyError | ParseError => False
  end.
Proof.
  destruct st as [cells m]. unfold cell_step.
  case_bool_decide as Hl; [done|].
  destruct (_column_name_to_index _) as [index|e'] eqn:Hidx; simpl.
  - case_bool_decide as Ht; simpl; [|done].
    destruct (cell_v c) as [[text|]|] eqn:Hv; simpl; try done.
    destruct text as [|ch text]; simpl; [done|].
    destruct (int (String ch text)) as [i|e'] eqn:Hint; simpl.
    + destruct (getitem shared_strings i) as [s|e'] eqn:Hget; simpl; [done|].
      intros [= <-]. apply getitem_error in Hget as [-> Hrange].
      split; [done|]. by exists (String ch text), i.
    + intros [= <-]. pose proof (int_error _ _ Hint) as ->.
      split; [done|]. by exists (String ch text).
  - intros [= <-]. by pose proof (column_letters_error _ _ Hidx) as ->.
Qed.

Lemma cell_step_errors_witness :
  cell_t (Cell (Some "A1") (Some "s") (Some (Some "x"))) = Some "s"
  ∧ ∃ text, cell_v (Cell (Some "A1") (Some "s") (Some (Some "x")))
            = Some (Some text)
            ∧ text ≠ "" ∧ int text = Err ValueError.
Proof.
  apply (cell_step_errors ["Foo"] (∅, -1)
           (Cell (Some "A1") (Some "s") (Some (Some "x"))) ValueError).
  reflexivity.
Defined.

(** X8. A cell that is not typed as a shared string keeps its own text:
    the table plays no part, and the text stored under the cell's index is
    the text of its value node, empty when the node or its text is
    missing. *)
Theorem inline_cell_verbatim (shared_strings : list string)
    (cells : gmap Z string) (m : Z) (c : cell) :
  cell_t c ≠ Some "s" →
  cell_step shared_strings (cells, m) c = cell_step [] (cells, m) c
  ∧ ∀ index,
      resolved_index c = Some index →
      cell_step shared_strings (cells, m) c
      = Ok (<[index := default "" (default None (cell_v c))]> cells,
            Z.max m index).
Proof.
  intros Ht.
  assert (∀ shared, cell_step shared (cells, m) c
    = if resolvable c
      then index ← _column_name_to_index (column_letters (default "" (cell_r c)));
           Ok (<[index := default "" (default None (cell_v c))]> cells,
               Z.max m index)
      else Ok (cells, m)) as Hstep.
  { intros shared. unfold cell_step, resolvable.
    destruct (bool_decide (column_letters _ = "")); simpl; [done|].
    destruct (_column_name_to_index _) as [index|e]; simpl; [|done].
    rewrite bool_decide_eq_false_2 by done. simpl.
    by destruct (cell_v c) as [[text|]|]. }
  split; [by rewrite !Hstep|].
  intros index. unfold resolved_index. rewrite Hstep.
  destruct (resolvable c); [|done].
  destruct (_column_name_to_index _) as [index'|e]; [|done].
  by intros [= ->].
Qed.

Lemma inline_cell_verbatim_witness :
  cell_step ["Foo"] (∅, -1) (Cell (Some "A1") (Some "n") (Some (Some "0")))
  = cell_step [] (∅, -1) (Cell (Some "A1") (Some "n") (Some (Some "0"))).
Proof.
  exact (proj1 (inline_cell_verbatim ["Foo"] ∅ (-1)
                  (Cell (Some "A1") (Some "n") (Some (Some "0")))
                  ltac:(discriminate))).
Defined.

(** X9. The extractor stops at the first row element that raises: the
    rows before it are lost with it and the exception is that row's. When
    no row element raises, the rows yielded are those of the row elements
    that yield one, in order. *)
Theorem sheet_rows_first_error (shared_strings : list string) :
  (∀ pre row post e,
     (∀ r, r ∈ pre → is_ok (sheet_row shared_strings r) = true) →
     sheet_row shared_strings row = Err e →
     sheet_rows shared_strings (pre ++ row :: post) = Err e)
  ∧ (∀ rows,
       (∀ r, r ∈ rows → is_ok (sheet_row shared_strings r) = true) →
       sheet_rows shared_strings rows
       = Ok (omap (λ r, match sheet_row shared_strings r with
                        | Ok y => y
                        | Err _ => None
                        end) rows)).
Proof.
  split.
  - intros pre row post e Hpre Hrow.
    induction pre as [|r pre IH]; cbn [app sheet_rows].
    + by rewrite Hrow.
    + pose proof (Hpre r ltac:(left)) as Hr.
      destruct (sheet_row shared_strings r) as [y|e']; [|done]. simpl.
      rewrite IH; [done|]. intros r' Hr'. apply Hpre. by right.
  - intros rows Hrows. induction rows as [|r rows IH]; [done|].
    cbn [sheet_rows omap list_omap].
    pose proof (Hrows r ltac:(left)) as Hr.
    destruct (sheet_row shared_strings r) as [y|e']; [|done]. simpl.
    rewrite IH by (intros r' Hr'; apply Hrows; by right). simpl.
    by destruct y.
Qed.

Lemma sheet_rows_first_error_witness :
  sheet_rows ["Foo"]
    ([[Cell (Some "A1") None (Some (Some "x"))]]
     ++ [Cell (Some "A2") (Some "s") (Some (Some "7"))]
        :: [[Cell (Some "A3") None (Some (Some "y"))]])
  = Err IndexError.
Proof.
  apply (proj1 (sheet_rows_first_error ["Foo"])).
  - intros r Hr. apply elem_of_cons in Hr as [->|Hr]; [reflexivity|].
    by apply elem_of_nil in Hr.
  - reflexivity.
Defined.


(** X10. [_clean_numeric] does not depend on the whitespace around its
    argument; when it raises, the exception is [ValueError], and when it
    returns, the number is not negative. *)
Theorem clean_numeric_trimmed (value : string) :
  _clean_numeric (strip value) = _clean_numeric value
  ∧ (∀ e, _clean_numeric value = Err e → e = ValueError)
  ∧ (∀ n, _clean_numeric value = Ok n → 0 ≤ n).
Proof.
  split_and!.
  - rewrite !clean_numeric_spec. unfold Spec.numeric_ok, Spec.number.
    by rewrite strip_idemp.
  - apply clean_numeric_error.
  - apply clean_numeric_nonneg.
Qed.

(** X11. A number of 4300 digits at most is printed by [str], and
    [_clean_numeric] reads the text back as the same number when it is not
    negative and refuses it with [ValueError] when it is negative. A
    number of more digits is refused by [str] with [ValueError]. *)
Theorem clean_numeric_of_printed (n : Z) :
  (Spec.printable n →
   str n = Ok (str_of_int n)
   ∧ _clean_numeric (str_of_int n) = if 0 <=? n then Ok n else Err ValueError)
  ∧ (¬ Spec.printable n → str n = Err ValueError).
Proof.
  split; [|apply str_unprintable].
  intros Hp. split; [by apply str_printable|].
  rewrite clean_numeric_spec. destruct (0 <=? n) eqn:Hn.
  - apply Z.leb_le in Hn.
    by destruct (numeric_ok_str_of_int n Hn Hp) as [-> ->].
  - apply Z.leb_gt in Hn. destruct n as [|q|q]; [lia|lia|].
    by rewrite numeric_ok_negative.
Qed.

Lemma clean_numeric_of_printed_witness :
  str 450 = Ok "450" ∧ _clean_numeric "450" = Ok 450
  ∧ str (-3) = Ok "-3" ∧ _clean_numeric "-3" = Err ValueError.
Proof.
  destruct (proj1 (clean_numeric_of_printed 450)) as [Hstr Hclean];
    [by vm_compute|].
  destruct (proj1 (clean_numeric_of_printed (-3))) as [Hstr' Hclean'];
    [by vm_compute|].
  split_and!; [exact Hstr|exact Hclean|exact Hstr'|exact Hclean'].
Defined.

(** ** The loader as a whole *)

Section loader_more.

Lemma clean_row_well_formed row entry :
  Spec.clean_row row = Some entry → Spec.well_formed entry.
Proof.
  unfold Spec.clean_row.
  destruct (forallb _ _) eqn:Hall; [|done]. intros [= <-].
  rewrite forallb_forall in Hall.
  assert (∀ i, (2 ≤ i ≤ 7)%nat → 0 ≤ Spec.number (Spec.column row i)) as Hpos.
  { intros i Hi.
    assert (Spec.numeric_ok (Spec.column row i) = true) as Hok.
    { apply Hall. assert (i ∈ seq 2 6) as Hin by (apply elem_of_seq; lia).
      by apply list_elem_of_In in Hin. }
    unfold Spec.numeric_ok in Hok.
    apply andb_prop in Hok as [[_ Hdec]%andb_prop _].
    by apply decimal_value_nonneg. }
  unfold Spec.well_formed.
  cbn [name price building_area land_area bedrooms bathrooms garage].
  split_and!; [apply strip_idemp|apply Hpos; lia..].
Qed.

Lemma clean_row_columns row row' :
  (∀ i, (1 ≤ i ≤ 7)%nat → Spec.column row i = Spec.column row' i) →
  Spec.clean_row row = Spec.clean_row row'.
Proof.
  intros Hcol. unfold Spec.clean_row. simpl.
  by rewrite !(Hcol 1%nat), !(Hcol 2%nat), !(Hcol 3%nat), !(Hcol 4%nat),
    !(Hcol 5%nat), !(Hcol 6%nat), !(Hcol 7%nat) by lia.
Qed.

(** The row that holds the values of a record as the writer prints them,
    behind an empty first column. *)
Lemma clean_row_of_values entry :
  Spec.well_formed entry → Spec.all_printable entry →
  Spec.clean_row ("" :: row_values entry) = Some entry.
Proof.
  destruct entry as [nm p b l bd bt g].
  intros (Hname & Hp & Hb & Hl & Hbd & Hbt & Hg)
         (Pp & Pb & Pl & Pbd & Pbt & Pg). simpl in *.
  unfold Spec.clean_row, row_values, Spec.column. simpl.
  destruct (numeric_ok_str_of_int p Hp Pp) as [-> ->].
  destruct (numeric_ok_str_of_int b Hb Pb) as [-> ->].
  destruct (numeric_ok_str_of_int l Hl Pl) as [-> ->].
  destruct (numeric_ok_str_of_int bd Hbd Pbd) as [-> ->].
  destruct (numeric_ok_str_of_int bt Hbt Pbt) as [-> ->].
  destruct (numeric_ok_str_of_int g Hg Pg) as [-> ->].
  simpl. by rewrite Hname.
Qed.

Lemma omap_length_le {A B} (f : A → option B) (l : list A) :
  (length (omap f l) ≤ length l)%nat.
Proof.
  induction l as [|a l IH]; [done|].
  cbn [omap list_omap]. destruct (f a); simpl in *; lia.
Qed.

Lemma omap_well_formed rows :
  Forall Spec.well_formed (omap Spec.clean_row rows).
Proof.
  induction rows as [|row rows IH]; simpl; [constructor|].
  destruct (Spec.clean_row row) as [entry|] eqn:Hrow; [|done].
  constructor; [by eapply clean_row_well_formed|done].
Qed.

Lemma omap_clean_values (entries : list listing) :
  Forall Spec.well_formed entries → Forall Spec.all_printable entries →
  omap Spec.clean_row ((λ entry, "" :: row_values entry) <$> entries) = entries.
Proof.
  induction 1 as [|entry entries Hentry _ IH]; [done|].
  intros [Hp Hps]%Forall_cons.
  cbn [fmap list_fmap omap list_omap].
  rewrite (clean_row_of_values _ Hentry Hp). f_equal. by apply IH.
Qed.

Lemma dedup_NoDup_id (l : list listing) : NoDup l → dedup_loop [] ∅ l = l.
Proof.
  induction l as [|x l IH] using rev_ind; [done|].
  intros [Hl [Hx _]]%NoDup_app. rewrite dedup_snoc, (IH Hl).
  rewrite bool_decide_eq_false_2; [done|].
  intros Hin. apply (Hx x Hin). left.
Qed.

Lemma load_rows_ok rows out :
  load_rows rows = Ok out →
  ∃ data_rows,
    rows = expected_header :: data_rows
    ∧ out = dedup_loop [] ∅ (omap Spec.clean_row data_rows).
Proof.
  unfold load_rows. destruct rows as [|header data_rows]; [done|].
  case_bool_decide as Hh; [done|].
  rewrite clean_loop_spec. simpl. intros [= <-].
  exists data_rows. split; [|done]. f_equal.
  by destruct (decide (header = expected_header)).
Qed.

Lemma load_rows_out rows out :
  load_rows rows = Ok out →
  Forall Spec.well_formed out ∧ NoDup out ∧ (length out < length rows)%nat.
Proof.
  intros Hload. destruct (load_rows_ok _ _ Hload) as (data_rows & -> & ->).
  split_and!.
  - apply Forall_forall. intros entry Hentry.
    apply (proj1 (dedup_elem_of _ _)) in Hentry.
    pose proof (omap_well_formed data_rows) as Hall.
    rewrite Forall_forall in Hall. by apply Hall.
  - apply dedup_NoDup.
  - pose proof (sublist_length _ _ (dedup_sublist (omap Spec.clean_row data_rows))).
    pose proof (omap_length_le Spec.clean_row data_rows). simpl. lia.
Qed.


End loader_more.

(** X12. [load_rows] succeeds exactly when the first row is the expected
    header: no data row can make it fail. When it fails, for want of rows
    or for a wrong header, the exception is [ValueError]. *)
Theorem load_rows_failure (rows : list (list string)) :
  (is_ok (load_rows rows) = true ↔ ∃ data_rows, rows = expected_header :: data_rows)
  ∧ (∀ e, load_rows rows = Err e → e = ValueError).
Proof.
  split; [split|].
  - destruct (load_rows rows) as [out|e] eqn:Hload; [|done]. intros _.
    destruct (load_rows_ok _ _ Hload) as (data_rows & -> & _). by eexists.
  - intros [data_rows ->]. unfold load_rows.
    rewrite bool_decide_eq_false_2 by (by intros []).
    by rewrite clean_loop_spec.
  - intros e. unfold load_rows. destruct rows as [|header data_rows].
    + by intros [= <-].
    + case_bool_decide; [by intros [= <-]|]. by rewrite clean_loop_spec.
Qed.

(** X13. Every record that [load_rows] returns has six numbers that are
    not negative and a name without surrounding whitespace; no record
    occurs twice; and there are fewer records than rows, the header
    included. *)
Theorem load_rows_invariant (rows : list (list string)) (out : list listing) :
  load_rows rows = Ok out →
  Forall Spec.well_formed out
  ∧ NoDup out
  ∧ (length out < length rows)%nat.
Proof. apply load_rows_out. Qed.

Lemma load_rows_invariant_witness :
  Forall Spec.well_formed [Listing "Rumah A" 0 36 60 2 1 0]
  ∧ NoDup [Listing "Rumah A" 0 36 60 2 1 0]
  ∧ (length [Listing "Rumah A" 0 36 60 2 1 0] < 3)%nat.
Proof.
  apply (load_rows_invariant
           [expected_header;
            ["1"; " Rumah A "; "0"; "36"; "60"; "2"; "1"; "0"];
            ["2"; "Rumah B"; "n/a"; "36"; "60"; "2"; "1"; "0"]]).
  reflexivity.
Defined.

(** X14. The outcome of a data row depends on its columns 1 to 7 only:
    the first column and whatever follows the eighth are ignored, and a
    missing column counts as an empty one. *)
Theorem clean_loop_columns (cleaned_rows : list listing)
    (row row' : list string) (rest : list (list string)) :
  (∀ i, (1 ≤ i ≤ 7)%nat → Spec.column row i = Spec.column row' i) →
  clean_loop cleaned_rows (row :: rest) = clean_loop cleaned_rows (row' :: rest).
Proof.
  intros Hcol. rewrite !clean_loop_spec. cbn [omap list_omap].
  by rewrite (clean_row_columns row row' Hcol).
Qed.

Lemma clean_loop_columns_witness :
  clean_loop [] [["7"; "Rumah A"; "0"; "36"; "60"; "2"; "1"; ""; "extra"]]
  = clean_loop [] [[""; "Rumah A"; "0"; "36"; "60"; "2"; "1"]].
Proof.
  apply clean_loop_columns.
  intros i Hi.
  assert (i = 1 ∨ i = 2 ∨ i = 3 ∨ i = 4 ∨ i = 5 ∨ i = 6 ∨ i = 7)%nat
    as Hcases by lia.
  repeat destruct Hcases as [->|Hcases]; try subst i; reflexivity.
Defined.

(** X15. Removing duplicates twice is the same as removing them once, and
    a sequence without duplicates is returned as it is. *)
Theorem dedup_idempotent (cleaned_rows : list listing) :
  dedup_loop [] ∅ (dedup_loop [] ∅ cleaned_rows) = dedup_loop [] ∅ cleaned_rows
  ∧ (NoDup cleaned_rows → dedup_loop [] ∅ cleaned_rows = cleaned_rows).
Proof.
  split; [|apply dedup_NoDup_id]. apply dedup_NoDup_id, dedup_NoDup.
Qed.

(** X16. Loading what was loaded changes nothing: the rows made of the
    expected header and, for each record returned, an empty first column
    followed by the record's values as the writer prints them, are loaded
    as the same records in the same order. *)
Theorem load_rows_reload (rows : list (list string)) (out : list listing) :
  load_rows rows = Ok out →
  load_rows (expected_header :: ((λ entry, "" :: row_values entry) <$> out))
  = Ok out.
Proof.
  intros Hload. destruct (load_rows_out rows out Hload) as (Hwf & Hnd & _).
  unfold load_rows. rewrite bool_decide_eq_false_2 by (by intros []).
  rewrite clean_loop_spec. simpl.
  rewrite (omap_clean_values out Hwf (load_rows_printable rows out Hload)).
  by rewrite (dedup_NoDup_id out Hnd).
Qed.

Lemma load_rows_reload_witness :
  load_rows
    (expected_header
     :: ((λ entry, "" :: row_values entry) <$> [Listing "Rumah A" 0 36 60 2 1 0]))
  = Ok [Listing "Rumah A" 0 36 60 2 1 0].
Proof.
  apply (load_rows_reload
           [expected_header;
            ["1"; " Rumah A "; "0"; "36"; "60"; "2"; "1"; "0"]]).
  reflexivity.
Defined.

(** ** More on the writer *)

Section writer_more.

(** A quoted text determines the text: the closing quote is the first
    quote that is not doubled. *)
Lemma double_quotes_inj (s t : string) :
  double_quotes s +:+ String dquote "" = double_quotes t +:+ String dquote "" →
  s = t.
Proof.
  revert t. induction s as [|c s IH]; intros [|d t]; cbn [double_quotes].
  - done.
  - change ("" +:+ String dquote "") with (String dquote "").
    destruct (ord d =? 34) eqn:Hd; rewrite ?str_app_cons.
    + intros Heq. discriminate Heq.
    + intros [= <- _]. discriminate Hd.
  - change ("" +:+ String dquote "") with (String dquote "").
    destruct (ord c =? 34) eqn:Hc; rewrite ?str_app_cons.
    + intros Heq. discriminate Heq.
    + intros [= -> _]. discriminate Hc.
  - destruct (ord c =? 34) eqn:Hc, (ord d =? 34) eqn:Hd; rewrite ?str_app_cons.
    + intros [= -> _ Hrest]. by rewrite (IH t Hrest).
    + intros [= -> _]. congruence.
    + intros [= -> _]. congruence.
    + intros [= -> Hrest]. by rewrite (IH t Hrest).
Qed.

Lemma csv_field_unquoted s :
  str_forall (λ c, negb (needs_quote c)) s = true →
  ∀ rest, s ≠ String dquote rest.
Proof.
  intros Hs rest ->. simpl in Hs. done.
Qed.

End writer_more.

(** X17. Writing to a destination replaces what an earlier call wrote
    there, and a call changes no other path. *)
Theorem export_overwrites (rows rows' : list listing) (destination : string)
    (fs : gmap string string) :
  rows' ≠ [] →
  export_to_csv rows' destination (export_to_csv rows destination fs).2
  = export_to_csv rows' destination fs
  ∧ ∀ path, path ≠ destination →
            (export_to_csv rows destination fs).2 !! path = fs !! path.
Proof.
  intros Hne. split.
  - destruct rows' as [|row' rest']; [done|].
    destruct rows as [|row rest]; [done|].
    unfold export_to_csv.
    destruct (write_rows _ (row :: rest)) as [outcome handle].
    destruct (write_rows _ (row' :: rest')) as [outcome' handle'].
    cbn [snd]. by rewrite insert_insert_eq.
  - intros path Hpath. destruct rows as [|row rest]; [done|].
    unfold export_to_csv.
    destruct (write_rows _ (row :: rest)) as [outcome handle].
    cbn [snd]. by rewrite lookup_insert_ne.
Qed.

Lemma export_overwrites_witness :
  export_to_csv [Listing "B" 2 2 2 2 2 2] "out.csv"
    (export_to_csv [Listing "A" 1 1 1 1 1 1] "out.csv" ∅).2
  = export_to_csv [Listing "B" 2 2 2 2 2 2] "out.csv" ∅.
Proof.
  exact (proj1 (export_overwrites [Listing "A" 1 1 1 1 1 1]
                  [Listing "B" 2 2 2 2 2 2] "out.csv" ∅ ltac:(discriminate))).
Defined.

(** X18. The quoting of the writer loses nothing: two different texts
    are never written as the same field. *)
Theorem csv_field_injective (s t : string) :
  s ≠ t → csv_field s ≠ csv_field t.
Proof.
  intros Hne Heq. apply Hne. revert Heq. unfold csv_field.
  destruct (str_forall _ s) eqn:Hs, (str_forall _ t) eqn:Ht; [done| | |].
  - rewrite str_app_cons. intros Heq. by destruct (csv_field_unquoted s Hs _ Heq).
  - rewrite str_app_cons. intros Heq. symmetry in Heq.
    by destruct (csv_field_unquoted t Ht _ Heq).
  - rewrite !str_app_cons. intros [= Heq]. by apply double_quotes_inj.
Qed.

Lemma csv_field_injective_witness :
  csv_field "a,b" ≠ csv_field (String dquote "a,b").
Proof. apply csv_field_injective. discriminate. Defined.

(** ** The program as a whole *)

Section program.

Lemma omap_all_none {A B} (f : A → option B) (l : list A) :
  (∀ a, a ∈ l → f a = None) → omap f l = [].
Proof.
  induction l as [|a l IH]; intros Hl; [done|].
  cbn [omap list_omap]. rewrite (Hl a) by left.
  apply IH. intros a' Ha'. apply Hl. by right.
Qed.

Lemma clean_row_refused row (i : nat) :
  (2 ≤ i ≤ 7)%nat →
  is_ok (_clean_numeric (Spec.column row i)) = false →
  Spec.clean_row row = None.
Proof.
  intros Hi Hbad. rewrite clean_numeric_spec in Hbad.
  destruct (Spec.numeric_ok (Spec.column row i)) eqn:Hok; [done|].
  unfold Spec.clean_row.
  assert (forallb (λ i, Spec.numeric_ok (Spec.column row i))
            [2; 3; 4; 5; 6; 7]%nat = false) as ->; [|done].
  apply forallb_false. exists i. split; [|done].
  apply list_elem_of_In. change [2; 3; 4; 5; 6; 7]%nat with (seq 2 6).
  apply elem_of_seq. lia.
Qed.



End program.

(** X19. When the header is right but every data row has a numeric column
    that [_clean_numeric] refuses, the run ends with the [ValueError] of the
    writer and the file system is as it was: no file is written. *)
Theorem no_record_no_file (shared_strings : list string)
    (sheet_data : option (list row_elem)) (data_rows : list (list string))
    (destination : string) (fs : gmap string string) :
  _iter_sheet_rows shared_strings sheet_data = Ok (expected_header :: data_rows) →
  (∀ row, row ∈ data_rows →
          ∃ i : nat, (2 ≤ i ≤ 7)%nat
                     ∧ is_ok (_clean_numeric (Spec.column row i)) = false) →
  load_house_data shared_strings sheet_data = Ok []
  ∧ main shared_strings sheet_data destination fs = (Err ValueError, fs).
Proof.
  intros Hrows Hbad.
  assert (load_house_data shared_strings sheet_data = Ok []) as Hload.
  { unfold load_house_data. rewrite Hrows, result_bind_ok. unfold load_rows.
    rewrite bool_decide_eq_false_2 by (by intros []).
    rewrite clean_loop_spec, result_bind_ok.
    rewrite omap_all_none; [done|].
    intros row Hrow. destruct (Hbad row Hrow) as (i & Hi & Hi').
    by eapply clean_row_refused. }
  split; [done|]. unfold main. by rewrite Hload.
Qed.

Lemma no_record_no_file_witness :
  main []
    (Some [(λ t, Cell (Some t.1) None (Some (Some t.2)))
             <$> [("A1", "NO"); ("B1", "NAMA RUMAH"); ("C1", "HARGA");
                  ("D1", "LB"); ("E1", "LT"); ("F1", "KT"); ("G1", "KM");
                  ("H1", "GRS")];
           [Cell (Some "B2") None (Some (Some "Rumah A"));
            Cell (Some "C2") None (Some (Some "n/a"))]])
    "out.csv" ∅
  = (Err ValueError, ∅).
Proof.
  refine (proj2 (no_record_no_file [] _ [[""; "Rumah A"; "n/a"]] "out.csv" ∅
                   _ _)).
  - reflexivity.
  - intros row Hrow. exists 2%nat.
    apply elem_of_cons in Hrow as [->|Hrow]; [|by apply elem_of_nil in Hrow].
    split; [lia|reflexivity].
Defined.




